(** * A server-sent-events chat: the event bus and the three routes

    The server keeps one [Observable] of chat events.  A stream route
    subscribes a callback that writes every event to its response, a
    register route and a message route publish events, and the close
    listener of a stream unsubscribes and publishes a sign-out event.

    The development embeds the [Observable] class, the three zod schemas
    and the route handlers, and then proves how events are delivered. *)

From Stdlib Require Import List String Ascii Arith Bool Lia ZArith.
From Stdlib Require Import DecimalString Sorted.
Import ListNotations.

(** ** The observable

    [Observable<T>] holds an array of subscriber functions.  Functions are
    compared by reference ([s !== subscriber]), so a subscriber is modelled
    by the identity of its function value, a number; what the function does
    when called is looked up in [behaviour].  A callback is arbitrary code:
    it may perform an outside effect, call back into the same observable
    (subscribe, invoke a handle, emit) or throw. *)

Module Observable.

Section Model.

Context {T E : Type}.

Definition Subscriber := nat.

(** The statements a piece of client code (a callback body, or a caller of
    the observable) is made of. *)
Inductive Stmt : Type :=
| Effect (x : E)
| CallSubscribe (s : Subscriber)
| CallHandle (s : Subscriber)
| CallEmit (d : T)
| Throw.

(** What an execution lets an observer see, in order. *)
Inductive Obs : Type :=
| Published (d : T)
| Invoked (s : Subscriber) (d : T)
| Cancelled (s : Subscriber)
| Did (x : E).

Record Observable : Type := { subscribers : list Subscriber }.

(** [new Observable()] *)
Definition create : Observable := {| subscribers := [] |}.

Inductive Status : Type := Returned | Threw | OutOfFuel.

Record Result : Type :=
  { status : Status; bus : Observable; out : list Obs }.

Definition ret (o : Observable) : Result :=
  {| status := Returned; bus := o; out := [] |}.

Definition tell (pre : list Obs) (r : Result) : Result :=
  {| status := status r; bus := bus r; out := pre ++ out r |}.

(** Sequencing: an exception (or the end of the fuel) skips what follows. *)
Definition bind (r : Result) (k : Observable -> Result) : Result :=
  match status r with
  | Returned => tell (out r) (k (bus r))
  | _ => r
  end.

(** [this.subscribers.push(subscriber)] *)
Definition subscribe (s : Subscriber) (o : Observable) : Observable :=
  {| subscribers := subscribers o ++ [s] |}.

(** The closure returned by [subscribe(subscriber)]:
    [this.subscribers = this.subscribers.filter((s) => s !== subscriber)].
    It captures only the subscriber, so it is a function of [s]. *)
Definition unsubscribe (s : Subscriber) (o : Observable) : Observable :=
  {| subscribers := filter (fun x => negb (Nat.eqb x s)) (subscribers o) |}.

Variable behaviour : Subscriber -> T -> list Stmt.

Section Depth.

(** How a callback is called; [invoke] below ties the knot. *)
Variable call : Subscriber -> T -> Observable -> Result.

(** [arr.forEach((s) => s(data))].  The array object that [forEach] walks
    is the one [this.subscribers] held when [emit] started: a handle
    replaces [this.subscribers] by a new array and leaves the old one as it
    was, and elements pushed during the walk lie beyond the length that
    [forEach] read at its start.  So the walk is over a snapshot. *)
Fixpoint forEach (arr : list Subscriber) (d : T) (o : Observable) : Result :=
  match arr with
  | [] => ret o
  | s :: rest => bind (call s d o) (forEach rest d)
  end.

Definition emit (d : T) (o : Observable) : Result :=
  tell [Published d] (forEach (subscribers o) d o).

Fixpoint run (body : list Stmt) (o : Observable) : Result :=
  match body with
  | [] => ret o
  | Effect x :: k => tell [Did x] (run k o)
  | CallSubscribe s :: k => run k (subscribe s o)
  | CallHandle s :: k => tell [Cancelled s] (run k (unsubscribe s o))
  | CallEmit d :: k => bind (emit d o) (run k)
  | Throw :: _ => {| status := Threw; bus := o; out := [] |}
  end.

End Depth.

(** Calling subscriber [s] with [d].  The fuel bounds how deep callbacks
    may nest (a callback that emits calls callbacks again). *)
Fixpoint invoke (fuel : nat) (s : Subscriber) (d : T) (o : Observable)
  : Result :=
  match fuel with
  | 0 => {| status := OutOfFuel; bus := o; out := [] |}
  | S n => tell [Invoked s d] (run (invoke n) (behaviour s d) o)
  end.

(** A program using the observable from outside. *)
Definition exec (fuel : nat) (script : list Stmt) (o : Observable) : Result :=
  run (invoke fuel) script o.

Definition publish (fuel : nat) (d : T) (o : Observable) : Result :=
  emit (invoke fuel) d o.

(** The calls of callbacks among the observations. *)
Fixpoint invocations (tr : list Obs) : list (Subscriber * T) :=
  match tr with
  | [] => []
  | Invoked s d :: tr' => (s, d) :: invocations tr'
  | _ :: tr' => invocations tr'
  end.

Fixpoint publications (tr : list Obs) : list T :=
  match tr with
  | [] => []
  | Published d :: tr' => d :: publications tr'
  | _ :: tr' => publications tr'
  end.

Fixpoint effects (tr : list Obs) : list E :=
  match tr with
  | [] => []
  | Did x :: tr' => x :: effects tr'
  | _ :: tr' => effects tr'
  end.

(** How often subscriber [s] was called. *)
Definition calls_of (s : Subscriber) (tr : list Obs) : nat :=
  List.length (filter (fun p => Nat.eqb (fst p) s) (invocations tr)).

(** A body that returns normally and does not publish: it has no [Throw]
    and no [CallEmit]. *)
Definition calm_stmt (c : Stmt) : bool :=
  match c with
  | Throw | CallEmit _ => false
  | _ => true
  end.

Definition calm (body : list Stmt) : bool := forallb calm_stmt body.

Definition subscribes (s : Subscriber) (c : Stmt) : bool :=
  match c with
  | CallSubscribe s' => Nat.eqb s' s
  | _ => false
  end.

Definition cancels (s : Subscriber) (c : Stmt) : bool :=
  match c with
  | CallHandle s' => Nat.eqb s' s
  | _ => false
  end.

(** A script of registrations and cancellations only. *)
Definition registration (c : Stmt) : bool :=
  match c with
  | CallSubscribe _ | CallHandle _ => true
  | _ => false
  end.

(** What the code leaves registered at the end of a script, in the order
    of registration.  This follows the array, not a set of callbacks: a
    function subscribed twice is listed twice, and a registration of [s]
    lapses when any handle for [s] is invoked later in the script, since a
    handle filters its function out wherever it stands. *)
Fixpoint still_subscribed (script : list Stmt) : list Subscriber :=
  match script with
  | [] => []
  | CallSubscribe s :: k =>
      if existsb (cancels s) k then still_subscribed k
      else s :: still_subscribed k
  | _ :: k => still_subscribed k
  end.

End Model.

Arguments Stmt : clear implicits.
Arguments Obs : clear implicits.
Arguments Result : clear implicits.

End Observable.

(** ** JSON values and [JSON.stringify]

    Request bodies, query objects and the events on the wire are JSON
    values.  A string is a sequence of 8-bit characters; a number is held
    only up to its integer value, the schemas look at no more than the type
    of a value.  The fields of an object are in insertion order, which is
    the order [JSON.stringify] prints them in. *)

Module Json.

#[local] Set Warnings "-automation".

Inductive JSON : Type :=
| JNull
| JBool (b : bool)
| JNum (n : Z)
| JStr (s : string)
| JArr (items : list JSON)
| JObj (fields : list (string * JSON)).

(** Property access [o[k]]; [None] is [undefined]. *)
Fixpoint get (k : string) (fields : list (string * JSON)) : option JSON :=
  match fields with
  | [] => None
  | (k', v) :: rest => if String.eqb k' k then Some v else get k rest
  end.

Definition LF : ascii := "010"%char.
Definition DQ : ascii := "034"%char.
Definition BSL : ascii := "092"%char.

Definition char (c : ascii) : string := String c EmptyString.

Definition hex_digit (n : nat) : ascii :=
  ascii_of_nat (if n <? 10 then 48 + n else 87 + n).

(** The escapes of [JSON.stringify] for one character. *)
Definition escape (c : ascii) : string :=
  let n := nat_of_ascii c in
  if n =? 34 then String BSL (char DQ)
  else if n =? 92 then String BSL (char BSL)
  else if n =? 8 then String BSL "b"
  else if n =? 9 then String BSL "t"
  else if n =? 10 then String BSL "n"
  else if n =? 12 then String BSL "f"
  else if n =? 13 then String BSL "r"
  else if n <? 32 then
    String BSL
      (String "u" (String "0" (String "0"
         (String (hex_digit (n / 16)) (char (hex_digit (n mod 16)))))))
  else char c.

Fixpoint escape_all (s : string) : string :=
  match s with
  | EmptyString => EmptyString
  | String c rest => (escape c ++ escape_all rest)%string
  end.

Definition quote (s : string) : string :=
  String DQ (escape_all s ++ char DQ)%string.

Fixpoint stringify (j : JSON) : string :=
  match j with
  | JNull => "null"
  | JBool true => "true"
  | JBool false => "false"
  | JNum n => NilZero.string_of_int (Z.to_int n)
  | JStr s => quote s
  | JArr items =>
      ("[" ++ String.concat "," (map stringify items) ++ "]")%string
  | JObj fields =>
      ("{" ++ String.concat ","
                (map (fun kv => quote (fst kv) ++ ":" ++ stringify (snd kv))
                   fields) ++ "}")%string
  end.

(** How often character [c] occurs in [s]. *)
Fixpoint occurrences (c : ascii) (s : string) : nat :=
  match s with
  | EmptyString => 0
  | String x rest => (if Ascii.eqb x c then 1 else 0) + occurrences c rest
  end.

End Json.

(** ** The zod schemas

    [safeParse] returns the parsed data or the list of issues.  Every issue
    of these schemas is an [invalid_type] at a path.  An object schema
    checks its keys in the order of its shape, gathers the issues of all of
    them, and keeps only the keys of the shape in its output. *)

Module Zod.

Import Json.

Record ZodIssue : Type :=
  { path : list string; expected : string; received : string }.

Definition ZodError := list ZodIssue.

Definition SafeParse (A : Type) : Type := (ZodError + A)%type.

Definition parsedType (v : option JSON) : string :=
  match v with
  | None => "undefined"
  | Some JNull => "null"
  | Some (JBool _) => "boolean"
  | Some (JNum _) => "number"
  | Some (JStr _) => "string"
  | Some (JArr _) => "array"
  | Some (JObj _) => "object"
  end.

Definition invalid_type (p : list string) (want : string) (v : option JSON)
  : ZodError :=
  [ {| path := p; expected := want; received := parsedType v |} ].

Definition issues {A : Type} (r : SafeParse A) : ZodError :=
  match r with
  | inl e => e
  | inr _ => []
  end.

Definition success {A : Type} (r : SafeParse A) : bool :=
  match r with
  | inl _ => false
  | inr _ => true
  end.

Definition is_string (v : option JSON) : bool :=
  match v with
  | Some (JStr _) => true
  | _ => false
  end.

(** [z.string()]: any string, the empty one too. *)
Definition z_string (p : list string) (v : option JSON) : SafeParse string :=
  match v with
  | Some (JStr s) => inr s
  | _ => inl (invalid_type p "string" v)
  end.

End Zod.

(** ** The server *)

Module Server.

Import Json Zod.
Export Observable.

Open Scope string_scope.

(** *** The event types *)

Record User : Type := { id : string; name : string }.

Inductive ChatEvent : Type :=
| UserSignedIn (user : User)
| UserMessage (id : string) (user : User) (message : string)
| UserSignedOut (user : User).

Definition discriminant (event : ChatEvent) : string :=
  match event with
  | UserSignedIn _ => "UserSignedIn"
  | UserMessage _ _ _ => "UserMessage"
  | UserSignedOut _ => "UserSignedOut"
  end.

Definition userJSON (u : User) : JSON :=
  JObj [("id", JStr (id u)); ("name", JStr (name u))].

(** The payload of an event as the routes build it; a message event is
    [{...result.data, id: v4()}], the parsed keys first and the id last. *)
Definition dataJSON (event : ChatEvent) : JSON :=
  match event with
  | UserSignedIn u => JObj [("user", userJSON u)]
  | UserMessage i u m =>
      JObj [("message", JStr m); ("user", userJSON u); ("id", JStr i)]
  | UserSignedOut u => JObj [("user", userJSON u)]
  end.

Definition toJSON (event : ChatEvent) : JSON :=
  JObj [("discriminant", JStr (discriminant event));
        ("data", dataJSON event)].

(** *** The schemas *)

Record MessageDto : Type := { message : string; user : User }.

(** The data of [signInSchema] is the object [{name}], held here by its
    one field. *)
Definition signInSchema (input : JSON) : SafeParse string :=
  match input with
  | JObj fields => z_string ["name"] (get "name" fields)
  | _ => inl (invalid_type [] "object" (Some input))
  end.

Definition userSchemaAt (p : list string) (input : option JSON)
  : SafeParse User :=
  match input with
  | Some (JObj fields) =>
      match z_string (p ++ ["id"])%list (get "id" fields),
            z_string (p ++ ["name"])%list (get "name" fields) with
      | inr i, inr n => inr {| id := i; name := n |}
      | ri, rn => inl (issues ri ++ issues rn)%list
      end
  | _ => inl (invalid_type p "object" input)
  end.

Definition userSchema (input : JSON) : SafeParse User :=
  userSchemaAt [] (Some input).

Definition messageSchema (input : JSON) : SafeParse MessageDto :=
  match input with
  | JObj fields =>
      match z_string ["message"] (get "message" fields),
            userSchemaAt ["user"] (get "user" fields) with
      | inr m, inr u => inr {| message := m; user := u |}
      | rm, ru => inl (issues rm ++ issues ru)%list
      end
  | _ => inl (invalid_type [] "object" (Some input))
  end.

(** *** Streams and frames *)

Definition Conn := nat.

Inductive IO : Type :=
| Write (c : Conn) (chunk : string).

Definition Step := Stmt ChatEvent IO.
Definition Event := Obs ChatEvent IO.

(** The callback of the stream route for connection [c]:
    two [res.write] calls per event. *)
Definition sse_subscriber (c : Conn) (event : ChatEvent) : list Step :=
  [ Effect (Write c ("event: message" ++ char LF));
    Effect (Write c ("data: " ++ stringify (toJSON event)
                       ++ char LF ++ char LF)) ].

(** What one event looks like on the wire. *)
Definition frame (event : ChatEvent) : string :=
  "event: message" ++ char LF
  ++ "data: " ++ stringify (toJSON event) ++ char LF ++ char LF.

Fixpoint written (c : Conn) (tr : list Event) : list string :=
  match tr with
  | [] => []
  | Did (Write c' chunk) :: rest =>
      if Nat.eqb c' c then chunk :: written c rest else written c rest
  | _ :: rest => written c rest
  end.

(** The bytes connection [c] has received. *)
Definition wire (c : Conn) (tr : list Event) : string :=
  String.concat EmptyString (written c tr).

(** What the callback of stream [c] lets one see of one event, and what a
    publish to the streams of [arr] lets one see. *)
Definition delivery (event : ChatEvent) (c : Conn) : list Event :=
  [ Invoked c event;
    Did (Write c ("event: message" ++ char LF));
    Did (Write c ("data: " ++ stringify (toJSON event)
                    ++ char LF ++ char LF)) ].

Definition broadcast (event : ChatEvent) (arr : list Conn) : list Event :=
  Published event :: flat_map (delivery event) arr.

Definition is_join (event : ChatEvent) : bool :=
  match event with
  | UserSignedIn _ => true
  | _ => false
  end.

(** The sign-in events among the observations. *)
Definition joined (tr : list Event) : list ChatEvent :=
  filter is_join (publications tr).

(** *** Responses and state *)

Inductive Payload : Type :=
| Empty
| Json (j : JSON)
| Error (e : ZodError)
| FailedResult (e : ZodError).

Inductive Response : Type :=
| Replied (code : nat) (payload : Payload)
| Streaming (c : Conn) (headers : list (string * string))
| NoResponse.

(** The calls of the logger are left out: they write to the log streams
    and touch neither the observable nor a response.

    [events] is the one observable of the process.  Every accepted stream
    adds a close listener, a closure over the validated identity and the
    handle of its subscription; a listener added with [on] stays.  The
    callback closure of a stream is a fresh function value: it is numbered
    by [streams], the count of accepted streams.  [uuids] counts the calls
    of [v4]. *)
Record State : Type :=
  { events : Observable;
    closeListeners : list (Conn * User);
    streams : nat;
    uuids : nat }.

Definition start : State :=
  {| events := create; closeListeners := []; streams := 0; uuids := 0 |}.

(** What holds of every state the server can be in: the stream callbacks
    registered are distinct closures, and callbacks and close listeners
    belong to streams accepted so far. *)
Definition well_formed (st : State) : Prop :=
  NoDup (subscribers (events st))
  /\ (forall c, In c (subscribers (events st)) -> c < streams st)
  /\ (forall c, In c (map fst (closeListeners st)) -> c < streams st).

Record Reply : Type :=
  { response : Response; server : State; trace : list Event }.

Fixpoint listener (c : Conn) (ls : list (Conn * User)) : option User :=
  match ls with
  | [] => None
  | (c', u) :: rest => if Nat.eqb c' c then Some u else listener c rest
  end.

(** Code of a route that uses the observable.  The callbacks are the
    stream callbacks, which call nothing back: one level of fuel. *)
Definition script (body : list Step) (o : Observable) : Result ChatEvent IO :=
  exec sse_subscriber 1 body o.

(** A handler that throws ends in the error handler of express. *)
Definition respond (r : Result ChatEvent IO) (ok : Response) : Response :=
  match status r with
  | Returned => ok
  | _ => Replied 500 Empty
  end.

Section Routes.

(** [v4 k] is the result of the [k]-th call of uuid's [v4()]. *)
Variable v4 : nat -> string.

(** [app.get('/chat/sse')] *)
Definition sse (query : JSON) (st : State) : Reply :=
  match userSchema query with
  | inl e => {| response := Replied 400 (Error e); server := st; trace := [] |}
  | inr u =>
      let c := streams st in
      let r := script [CallSubscribe c] (events st) in
      {| response :=
           Streaming c [("Cache-Control", "no-store");
                        ("Content-Type", "text/event-stream");
                        ("Connection", "keep-alive")];
         server := {| events := bus r;
                      closeListeners := (closeListeners st ++ [(c, u)])%list;
                      streams := S c;
                      uuids := uuids st |};
         trace := out r |}
  end.

(** The listener of [req.on('close')] of stream [c], run on a close
    signal: [unsubscribe()] and then [events.emit] of the sign-out. *)
Definition close (c : Conn) (st : State) : Reply :=
  match listener c (closeListeners st) with
  | None => {| response := NoResponse; server := st; trace := [] |}
  | Some u =>
      let r := script [CallHandle c; CallEmit (UserSignedOut u)] (events st) in
      {| response := NoResponse;
         server := {| events := bus r;
                      closeListeners := closeListeners st;
                      streams := streams st;
                      uuids := uuids st |};
         trace := out r |}
  end.

(** [app.post('/chat/register')] *)
Definition register (body : JSON) (st : State) : Reply :=
  match signInSchema body with
  | inl e =>
      {| response := Replied 400 (FailedResult e); server := st; trace := [] |}
  | inr n =>
      let u := {| id := v4 (uuids st); name := n |} in
      let r := script [CallEmit (UserSignedIn u)] (events st) in
      {| response := respond r (Replied 200 (Json (userJSON u)));
         server := {| events := bus r;
                      closeListeners := closeListeners st;
                      streams := streams st;
                      uuids := S (uuids st) |};
         trace := out r |}
  end.

(** [app.post('/chat/message')] *)
Definition postMessage (body : JSON) (st : State) : Reply :=
  match messageSchema body with
  | inl e => {| response := Replied 400 (Error e); server := st; trace := [] |}
  | inr m =>
      let ev := UserMessage (v4 (uuids st)) (user m) (message m) in
      let r := script [CallEmit ev] (events st) in
      {| response := respond r (Replied 204 Empty);
         server := {| events := bus r;
                      closeListeners := closeListeners st;
                      streams := streams st;
                      uuids := S (uuids st) |};
         trace := out r |}
  end.

Inductive Request : Type :=
| GetSse (query : JSON)
| CloseSignal (c : Conn)
| PostRegister (body : JSON)
| PostMessage (body : JSON).

Definition handle (q : Request) (st : State) : Reply :=
  match q with
  | GetSse query => sse query st
  | CloseSignal c => close c st
  | PostRegister body => register body st
  | PostMessage body => postMessage body st
  end.

(** The server over a sequence of requests and signals: the final state
    and everything observed. *)
Fixpoint serve (qs : list Request) (st : State) : State * list Event :=
  match qs with
  | [] => (st, [])
  | q :: rest =>
      let r := handle q st in
      let (st', tr) := serve rest (server r) in
      (st', (trace r ++ tr)%list)
  end.

Definition reachable (st : State) : Prop :=
  exists qs, fst (serve qs start) = st.

(** Node's part in the close of a stream.  A request emits ['close'] once,
    and the stream route listens to ['close'] and to nothing else of the
    transport.  So the close listener of a stream runs at the first close
    signal of its request; a further signal for that request, or a signal
    for what is no accepted stream, reaches no listener.  [closeEmitted]
    lists the streams whose request has emitted ['close']. *)
Record Process : Type := { core : State; closeEmitted : list Conn }.

Definition boot : Process := {| core := start; closeEmitted := [] |}.

Record Outcome : Type :=
  { reply : Response; process : Process; seen : list Event }.

(** Nothing runs. *)
Definition idle (p : Process) : Outcome :=
  {| reply := NoResponse; process := p; seen := [] |}.

Definition dispatch (q : Request) (p : Process) : Outcome :=
  match q with
  | CloseSignal c =>
      if existsb (Nat.eqb c) (closeEmitted p) then idle p
      else
        match listener c (closeListeners (core p)) with
        | None => idle p
        | Some _ =>
            let r := close c (core p) in
            {| reply := response r;
               process := {| core := server r;
                             closeEmitted := c :: closeEmitted p |};
               seen := trace r |}
        end
  | _ =>
      let r := handle q (core p) in
      {| reply := response r;
         process := {| core := server r; closeEmitted := closeEmitted p |};
         seen := trace r |}
  end.

Fixpoint dispatch_all (qs : list Request) (p : Process)
  : Process * list Event :=
  match qs with
  | [] => (p, [])
  | q :: rest =>
      let o := dispatch q p in
      let (p', tr) := dispatch_all rest (process o) in
      (p', (seen o ++ tr)%list)
  end.

Definition attainable (p : Process) : Prop :=
  exists qs, fst (dispatch_all qs boot) = p.

End Routes.

Definition is_leave (event : ChatEvent) : bool :=
  match event with
  | UserSignedOut _ => true
  | _ => false
  end.


(** The id that [v4] minted for an event, if one was. *)
Definition minted (event : ChatEvent) : list string :=
  match event with
  | UserSignedIn u => [id u]
  | UserMessage i _ _ => [i]
  | UserSignedOut _ => []
  end.

Definition closes (c : Conn) (q : Request) : bool :=
  match q with
  | CloseSignal c' => Nat.eqb c' c
  | _ => false
  end.

End Server.

(** ** The web client

    The listener of the event source in [useRealtimeChatMessages], the rows
    of the chat page and [joinParams].  A JavaScript value here is a JSON
    value or [undefined]. *)

Module Client.

Import Json.

Open Scope string_scope.

Definition Value := option JSON.

(** A computation that may end in a [TypeError]. *)
Inductive Access (A : Type) : Type :=
| TypeError
| Val (a : A).

Arguments TypeError {A}.
Arguments Val {A} a.

Definition bind {A B : Type} (a : Access A) (k : A -> Access B) : Access B :=
  match a with
  | TypeError => TypeError
  | Val x => k x
  end.

Notation "x <- a ;; k" := (bind a (fun x => k))
  (at level 61, a at next level, right associativity).

(** [v.k] for the keys this code reads ([discriminant], [data], [user],
    [name], [id], [message]), which no prototype defines: reading a
    property of [undefined] or [null] throws, a value that is no object has
    none of them. *)
Definition member (v : Value) (k : string) : Access Value :=
  match v with
  | None | Some JNull => TypeError
  | Some (JObj fields) => Val (get k fields)
  | Some _ => Val None
  end.

(** The string a value turns into inside a template literal. *)
Fixpoint toString (j : JSON) : string :=
  match j with
  | JNull => "null"
  | JBool true => "true"
  | JBool false => "false"
  | JNum n => NilZero.string_of_int (Z.to_int n)
  | JStr s => s
  | JArr items =>
      String.concat ","
        (map (fun x => match x with
                       | JNull => EmptyString
                       | _ => toString x
                       end) items)
  | JObj _ => "[object Object]"
  end.

Definition text (v : Value) : string :=
  match v with
  | None => "undefined"
  | Some j => toString j
  end.

(** [v === 'literal'] *)
Definition equals (v : Value) (literal : string) : bool :=
  match v with
  | Some (JStr s) => String.eqb s literal
  | _ => false
  end.

Record ChatMessage : Type := { id : Value; name : Value; message : Value }.

Definition system (now : string) (line : string) : ChatMessage :=
  {| id := Some (JStr now);
     name := Some (JStr "System");
     message := Some (JStr line) |}.

(** The listener of [message] events, from the parsed payload on.  [now]
    is [String(Date.now())]; an entry [None] of the list is [undefined].
    The three [if]s are tried one after the other, and [message] keeps
    the value of the last one that matched. *)
Definition onMessage (now : string) (payload : JSON)
  (messages : list (option ChatMessage)) : Access (list (option ChatMessage)) :=
  let p := Some payload in
  d1 <- member p "discriminant" ;;
  m1 <- (if equals d1 "UserSignedIn" then
           data <- member p "data" ;;
           user <- member data "user" ;;
           n <- member user "name" ;;
           Val (Some (system now (text n ++ " has joined the chat")))
         else Val None) ;;
  d2 <- member p "discriminant" ;;
  m2 <- (if equals d2 "UserMessage" then
           data <- member p "data" ;;
           i <- member data "id" ;;
           data1 <- member p "data" ;;
           user <- member data1 "user" ;;
           n <- member user "name" ;;
           data2 <- member p "data" ;;
           m <- member data2 "message" ;;
           Val (Some {| id := i; name := n; message := m |})
         else Val m1) ;;
  d3 <- member p "discriminant" ;;
  m3 <- (if equals d3 "UserSignedOff" then
           data <- member p "data" ;;
           user <- member data "user" ;;
           n <- member user "name" ;;
           Val (Some (system now (text n ++ " has left the chat")))
         else Val m2) ;;
  Val (messages ++ [m3])%list.

(** The listener over the payloads of several frames, oldest first; every
    frame has its own [now]. *)
Fixpoint onMessages (frames : list (string * JSON))
  (messages : list (option ChatMessage)) : Access (list (option ChatMessage)) :=
  match frames with
  | [] => Val messages
  | (now, payload) :: rest =>
      messages1 <- onMessage now payload messages ;;
      onMessages rest messages1
  end.

(** What the listener makes of the events the server sends, each with the
    [now] of its arrival: the payload of a frame is the event as JSON, the
    value that [JSON.parse] gives back for the text the server wrote. *)
Definition arrivals (events : list (string * Server.ChatEvent))
  : list (string * JSON) :=
  map (fun a => (fst a, Server.toJSON (snd a))) events.

(** The rows of the chat page: [messages.map] reads [id], [name] and
    [message] of every entry. *)
Definition row (m : option ChatMessage) : Access (Value * Value * Value) :=
  match m with
  | None => TypeError
  | Some c => Val (id c, name c, message c)
  end.

Fixpoint rows (messages : list (option ChatMessage))
  : Access (list (Value * Value * Value)) :=
  match messages with
  | [] => Val []
  | m :: rest =>
      r <- row m ;;
      rs <- rows rest ;;
      Val (r :: rs)
  end.

(** [joinParams]; [params] lists the entries of the object in the order of
    [Object.keys]. *)
Definition joinParams (params : list (string * string)) : string :=
  match params with
  | [] => EmptyString
  | _ =>
      "?" ++ String.concat "&"
               (map (fun kv => fst kv ++ "=" ++ snd kv) params)
  end.

End Client.

(** ** The store of the web client

    [createObservable] keeps a state and a [Set] of listeners.  A [Set]
    holds a function once, however often it is added, and [forEach] walks
    the live set: [SetData] is a list of entries, [delete] empties the
    entry of a value and leaves it in place, [add] appends a value that no
    entry holds, and [forEach] goes by index and reads the length anew
    after every call.  A listener is modelled by the identity of its
    function; what it does when called is looked up in [behaviour], and it
    may call back into the store. *)

Module Store.

Section Model.

Context {V P E : Type}.

Definition Listener := nat.

Inductive Stmt : Type :=
| Effect (x : E)
| CallSet (v : V)
| CallUpdate (p : P)
| CallSubscribe (l : Listener)
| CallHandle (l : Listener)
| Throw.

Inductive Obs : Type :=
| Notified (l : Listener) (v : V)
| Did (x : E).

Record Store : Type := { state : V; listeners : list (option Listener) }.

(** [createObservable(state)] *)
Definition create (s : V) : Store := {| state := s; listeners := [] |}.

Definition get (st : Store) : V := state st.

Definition holds (l : Listener) (e : option Listener) : bool :=
  match e with
  | Some l' => Nat.eqb l' l
  | None => false
  end.

(** [listeners.add(listener)] *)
Definition add (l : Listener) (st : Store) : Store :=
  if existsb (holds l) (listeners st) then st
  else {| state := state st; listeners := listeners st ++ [Some l] |}.

(** The closure returned by [subscribe]: [listeners.delete(listener)]. *)
Definition delete (l : Listener) (st : Store) : Store :=
  {| state := state st;
     listeners := map (fun e => if holds l e then None else e)
                    (listeners st) |}.

(** The listeners the set holds, in the order they were added. *)
Fixpoint live (entries : list (option Listener)) : list Listener :=
  match entries with
  | [] => []
  | Some l :: rest => l :: live rest
  | None :: rest => live rest
  end.

Inductive Status : Type := Returned | Threw | OutOfFuel.

Record Result : Type := { status : Status; store : Store; out : list Obs }.

Definition ret (st : Store) : Result :=
  {| status := Returned; store := st; out := [] |}.

Definition tell (pre : list Obs) (r : Result) : Result :=
  {| status := status r; store := store r; out := pre ++ out r |}.

Definition bind (r : Result) (k : Store -> Result) : Result :=
  match status r with
  | Returned => tell (out r) (k (store r))
  | _ => r
  end.

(** [{ ...state, ...newState }] *)
Variable merge : V -> P -> V.

Variable behaviour : Listener -> V -> list Stmt.

Section Depth.

Variable call : Listener -> V -> Store -> Result.

(** How many entries one [forEach] may look at. *)
Variable steps : nat.

(** [listeners.forEach((listener) => listener(newState))] from entry [i]
    on. *)
Fixpoint forEach (k : nat) (i : nat) (v : V) (st : Store) : Result :=
  match k with
  | 0 => {| status := OutOfFuel; store := st; out := [] |}
  | S k' =>
      match nth_error (listeners st) i with
      | None => ret st
      | Some None => forEach k' (S i) v st
      | Some (Some l) => bind (call l v st) (forEach k' (S i) v)
      end
  end.

Definition set (v : V) (st : Store) : Result :=
  forEach steps 0 v {| state := v; listeners := listeners st |}.

Definition update (p : P) (st : Store) : Result :=
  set (merge (state st) p) st.

Fixpoint run (body : list Stmt) (st : Store) : Result :=
  match body with
  | [] => ret st
  | Effect x :: k => tell [Did x] (run k st)
  | CallSet v :: k => bind (set v st) (run k)
  | CallUpdate p :: k => bind (update p st) (run k)
  | CallSubscribe l :: k => run k (add l st)
  | CallHandle l :: k => run k (delete l st)
  | Throw :: _ => {| status := Threw; store := st; out := [] |}
  end.

End Depth.

(** Calling listener [l] with [v]; [depth] bounds how deep listeners
    nest. *)
Fixpoint invoke (depth steps : nat) (l : Listener) (v : V) (st : Store)
  : Result :=
  match depth with
  | 0 => {| status := OutOfFuel; store := st; out := [] |}
  | S n => tell [Notified l v] (run (invoke n steps) steps (behaviour l v) st)
  end.

Definition exec (depth steps : nat) (script : list Stmt) (st : Store)
  : Result :=
  run (invoke depth steps) steps script st.

Fixpoint notified (tr : list Obs) : list (Listener * V) :=
  match tr with
  | [] => []
  | Notified l v :: tr' => (l, v) :: notified tr'
  | _ :: tr' => notified tr'
  end.

(** A listener body that leaves the store alone and returns. *)
Definition quiet_stmt (c : Stmt) : bool :=
  match c with
  | Effect _ => true
  | _ => false
  end.

Definition quiet (body : list Stmt) : bool := forallb quiet_stmt body.

End Model.

Arguments Stmt : clear implicits.
Arguments Obs : clear implicits.
Arguments Store : clear implicits.
Arguments Result : clear implicits.

(** The store of the signed-in user, [createObservable({ user: null })];
    [setUser(user)] is [authStore.update({ user })], and the spread of
    [{ user }] over a state with the one key [user] is [{ user }]. *)
Definition AuthState := option Server.User.

Definition authStore : Store AuthState := create None.

Definition setUser {E : Type} (user : option Server.User)
  : list (Stmt AuthState AuthState E) :=
  [CallUpdate user].

Definition spread_user (old new : AuthState) : AuthState := new.

(** [PrivateRoute]: the page when there is a user, the way back to the
    sign-in page otherwise. *)
Inductive Shown : Type := Children | NavigateHome.

Definition PrivateRoute (user : AuthState) : Shown :=
  match user with
  | Some _ => Children
  | None => NavigateHome
  end.

End Store.

(** ** Sample subscribers and requests, used to run the model *)

Module Samples.

Import Json Zod Server.

Open Scope string_scope.

(** Callbacks over events [nat] whose one outside effect is [tt].
    Subscriber 1 of [faulty] throws; subscriber 1 of [meddling] invokes the
    handle of subscriber 2; every other callback performs the effect and
    returns. *)
Definition quiet (s : Subscriber) (d : nat) : list (Stmt nat unit) :=
  [Effect tt].

Definition faulty (s : Subscriber) (d : nat) : list (Stmt nat unit) :=
  if Nat.eqb s 1 then [Throw] else [Effect tt].

Definition meddling (s : Subscriber) (d : nat) : list (Stmt nat unit) :=
  if Nat.eqb s 1 then [CallHandle 2] else [Effect tt].

(** Subscriber 1 of [echoing] answers the event 7 by publishing 8. *)
Definition echoing (s : Subscriber) (d : nat) : list (Stmt nat unit) :=
  if Nat.eqb s 1 && Nat.eqb d 7 then [CallEmit 8] else [Effect tt].

Definition two : Observable := subscribe 2 (subscribe 1 create).

(** The same callback subscribed twice. *)
Definition twice_the_same : list (Stmt nat unit) :=
  [CallSubscribe 1; CallSubscribe 1].

(** A callback subscribed, its handle invoked, and the same function
    subscribed anew. *)
Definition subscribed_anew : list (Stmt nat unit) :=
  [CallSubscribe 1; CallHandle 1; CallSubscribe 1].

(** Three callbacks subscribed, then the handle of the second invoked. *)
Definition three_less_one : list (Stmt nat unit) :=
  [CallSubscribe 1; CallSubscribe 2; CallSubscribe 3; CallHandle 2].

Definition publish_twice : list (Stmt nat unit) := [CallEmit 7; CallEmit 8].

(** Listeners of a store of numbers.  On the state 7 listener 1 of
    [unhooking] invokes the handle of listener 3 and listener 1 of
    [hooking] subscribes listener 4; every other call performs the effect
    and returns. *)
Definition plain (l : Store.Listener) (v : nat)
  : list (Store.Stmt nat nat unit) :=
  [Store.Effect tt].

Definition unhooking (l : Store.Listener) (v : nat)
  : list (Store.Stmt nat nat unit) :=
  if Nat.eqb l 1 && Nat.eqb v 7 then [Store.CallHandle 3]
  else [Store.Effect tt].

Definition hooking (l : Store.Listener) (v : nat)
  : list (Store.Stmt nat nat unit) :=
  if Nat.eqb l 1 && Nat.eqb v 7 then [Store.CallSubscribe 4]
  else [Store.Effect tt].

Definition three_listeners : Store.Store nat :=
  Store.add 3 (Store.add 2 (Store.add 1 (Store.create 0))).

Definition watched : Store.Store Store.AuthState :=
  Store.add 1 Store.authStore.

Definition watcher (l : Store.Listener) (v : Store.AuthState)
  : list (Store.Stmt Store.AuthState Store.AuthState unit) :=
  [Store.Effect tt].

(** A stand-in for uuid's [v4]: the [k]-th id is [uuid-] and [k] marks. *)
Fixpoint marks (k : nat) : string :=
  match k with
  | 0 => EmptyString
  | S k' => String "x" (marks k')
  end.

Definition sample_v4 (k : nat) : string := "uuid-" ++ marks k.

Definition alice : User := {| id := "u1"; name := "Alice" |}.
Definition bob : User := {| id := "u2"; name := "Bob" |}.

Definition hi_fields : list (string * JSON) :=
  [("user", userJSON alice); ("message", JStr "hi")].

Definition empty_name : JSON := JObj [("name", JStr EmptyString)].

(** A message body whose [message] is a number. *)
Definition number_fields : list (string * JSON) :=
  [("user", userJSON alice); ("message", JNum 3)].

(** Alice and Bob open their streams; then Alice's stream closes. *)
Definition both_open : list Request :=
  [GetSse (userJSON alice); GetSse (userJSON bob)].

Definition alice_closed : list Request :=
  [GetSse (userJSON alice); GetSse (userJSON bob); CloseSignal 0].

(** Two frames that reach the listener: Bob has signed in, Alice says
    hi. *)
Definition two_arrivals : list (string * ChatEvent) :=
  [ ("1700000000000", UserSignedIn bob);
    ("1700000000001", UserMessage "m1" alice "hi") ].

(** Bob registers and Alice says hi. *)
Definition chatter : list Request :=
  [PostRegister (JObj [("name", JStr "Bob")]); PostMessage (JObj hi_fields)].

(** A stream request without a name. *)
Definition nameless : JSON := JObj [("id", JStr "u1")].


End Samples.

(** ** Facts about the observable *)

Module ObservableFacts.

Import Observable.

Section Facts.

Context {T E : Type}.

Variable behaviour : Subscriber -> T -> list (Stmt T E).

Implicit Types (o : Observable) (r : Result T E) (tr : list (Obs T E)).
Implicit Types (s x : Subscriber) (d e : T).
Implicit Types body script pre post : list (Stmt T E).

Lemma invocations_app tr tr' :
  invocations (tr ++ tr') = invocations tr ++ invocations tr'.
Proof.
  induction tr as [|[ | | | ] tr IH]; simpl; try rewrite IH; reflexivity.
Qed.

Lemma publications_app tr tr' :
  publications (tr ++ tr') = publications tr ++ publications tr'.
Proof.
  induction tr as [|[ | | | ] tr IH]; simpl; try rewrite IH; reflexivity.
Qed.

Lemma calls_of_app s tr tr' :
  calls_of s (tr ++ tr') = calls_of s tr + calls_of s tr'.
Proof.
  unfold calls_of.
  now rewrite invocations_app, filter_app, length_app.
Qed.

Lemma calls_of_nil s : calls_of s (@nil (Obs T E)) = 0.
Proof. reflexivity. Qed.

Lemma bind_returned r k :
  status r = Returned -> bind r k = tell (out r) (k (bus r)).
Proof. unfold bind; intros ->; reflexivity. Qed.

Lemma bind_stopped r k : status r <> Returned -> bind r k = r.
Proof. unfold bind; destruct (status r); congruence. Qed.

(** The subscriber list after a handle: no [s] left, the rest as it was. *)
Lemma unsubscribe_spec s x o :
  In x (subscribers (unsubscribe s o)) <-> In x (subscribers o) /\ x <> s.
Proof.
  unfold unsubscribe; simpl. rewrite filter_In, negb_true_iff, Nat.eqb_neq.
  reflexivity.
Qed.

Lemma unsubscribe_twice s o :
  unsubscribe s (unsubscribe s o) = unsubscribe s o.
Proof.
  unfold unsubscribe; simpl. f_equal.
  induction (subscribers o) as [|y l IH]; simpl; [reflexivity|].
  destruct (Nat.eqb y s) eqn:Hy; simpl; [exact IH|].
  rewrite Hy; simpl. now rewrite IH.
Qed.

(** The handle of a function that is not registered changes nothing. *)
Lemma unsubscribe_absent s o :
  ~ In s (subscribers o) -> unsubscribe s o = o.
Proof.
  destruct o as [l]. unfold unsubscribe; simpl. intros H. f_equal.
  induction l as [|y l IH]; simpl; [reflexivity|].
  destruct (Nat.eqb y s) eqn:Hy; simpl.
  - apply Nat.eqb_eq in Hy. subst y. exfalso. apply H. now left.
  - rewrite IH; [reflexivity|]. intros Hin. apply H. now right.
Qed.

Lemma filter_filter {A : Type} (f g : A -> bool) (l : list A) :
  filter f (filter g l) = filter (fun a => g a && f a) l.
Proof.
  induction l as [|a l IH]; simpl; [reflexivity|].
  destruct (g a); simpl; [destruct (f a)|]; now rewrite IH.
Qed.

(** A calm body returns and calls no callback, however callbacks are
    called. *)
Lemma run_calm call body :
  calm body = true ->
  forall o,
    status (run call body o) = Returned
    /\ invocations (out (run call body o)) = []
    /\ publications (out (run call body o)) = [].
Proof.
  induction body as [|c body IH]; intros Hc o; [now simpl|].
  simpl in Hc. apply andb_true_iff in Hc as [Hc Hb].
  destruct c; simpl in Hc; try discriminate; simpl; now apply IH.
Qed.

(** The walk of [forEach] over calm callbacks calls each element of the
    array once, in order, whatever the callbacks do to the subscriber
    list meanwhile. *)
Lemma forEach_snapshot n arr d :
  (forall s, In s arr -> calm (behaviour s d) = true) ->
  forall o,
    status (forEach (invoke behaviour (S n)) arr d o) = Returned
    /\ invocations (out (forEach (invoke behaviour (S n)) arr d o))
       = map (fun s => (s, d)) arr
    /\ publications (out (forEach (invoke behaviour (S n)) arr d o)) = [].
Proof.
  induction arr as [|s arr IH]; intros Hcalm o; [now simpl|].
  cbn [forEach].
  destruct (run_calm (invoke behaviour n) (behaviour s d)
              (Hcalm s (or_introl eq_refl)) o) as (Hst & Hinv & Hpub).
  rewrite bind_returned by (cbn [invoke tell status]; exact Hst).
  destruct (IH (fun y Hy => Hcalm y (or_intror Hy))
              (bus (invoke behaviour (S n) s d o))) as (Hst' & Hinv' & Hpub').
  cbn [tell status out bus]. split; [exact Hst'|].
  rewrite invocations_app, publications_app, Hinv', Hpub'.
  cbn [invoke tell out]. cbn [app invocations publications].
  rewrite Hinv, Hpub. now simpl.
Qed.

Lemma publish_snapshot n d o :
  (forall s, In s (subscribers o) -> calm (behaviour s d) = true) ->
  status (publish behaviour (S n) d o) = Returned
  /\ invocations (out (publish behaviour (S n) d o))
     = map (fun s => (s, d)) (subscribers o)
  /\ publications (out (publish behaviour (S n) d o)) = [d].
Proof.
  intros Hcalm. unfold publish, emit.
  destruct (forEach_snapshot n (subscribers o) d Hcalm o) as (Hst & Hinv & Hp).
  cbn [tell status out]. cbn [app invocations publications].
  now rewrite Hinv, Hp.
Qed.

Lemma calls_of_map s d (l : list Subscriber) (tr : list (Obs T E)) :
  invocations tr = map (fun y => (y, d)) l ->
  calls_of s tr = count_occ Nat.eq_dec l s.
Proof.
  unfold calls_of; intros ->.
  induction l as [|y l IH]; simpl; [reflexivity|].
  destruct (Nat.eq_dec y s) as [->|Hne].
  - rewrite Nat.eqb_refl; simpl. now rewrite IH.
  - apply Nat.eqb_neq in Hne. now rewrite Hne.
Qed.

Lemma filter_all {A : Type} (f : A -> bool) (l : list A) :
  (forall a, f a = true) -> filter f l = l.
Proof.
  intros Hf; induction l as [|a l IH]; simpl; [reflexivity|].
  now rewrite Hf, IH.
Qed.

(** A script of subscribe calls and handle calls returns, calls no
    callback, and leaves registered what [still_subscribed] says. *)
Lemma run_registrations call script :
  forallb registration script = true ->
  forall o,
    status (run call script o) = Returned
    /\ invocations (out (run call script o)) = []
    /\ subscribers (bus (run call script o))
       = filter (fun x => negb (existsb (cancels x) script)) (subscribers o)
         ++ still_subscribed script.
Proof.
  induction script as [|c k IH]; intros Hreg o.
  - simpl. rewrite filter_all by reflexivity. now rewrite app_nil_r.
  - simpl in Hreg. apply andb_true_iff in Hreg as [Hc Hk].
    destruct c as [y|y|y|y|]; simpl in Hc; try discriminate.
    + destruct (IH Hk (subscribe y o)) as (Hst & Hinv & Hsub).
      cbn [run]. split; [exact Hst|]. split; [exact Hinv|].
      rewrite Hsub. cbn [subscribe subscribers].
      rewrite filter_app. cbn [filter still_subscribed existsb cancels orb].
      destruct (existsb (cancels y) k); cbn [negb];
        now rewrite <- app_assoc.
    + destruct (IH Hk (unsubscribe y o)) as (Hst & Hinv & Hsub).
      cbn [run tell status out bus]. split; [exact Hst|].
      split; [exact Hinv|].
      rewrite Hsub. cbn [unsubscribe subscribers still_subscribed].
      rewrite filter_filter. f_equal. apply filter_ext. intros a.
      cbn [existsb cancels]. rewrite negb_orb. now rewrite (Nat.eqb_sym y a).
Qed.

Lemma still_subscribed_In s script :
  In s (still_subscribed script) -> existsb (subscribes s) script = true.
Proof.
  induction script as [|c k IH]; simpl; [tauto|].
  destruct c as [y|y|y|y|]; simpl; auto.
  destruct (Nat.eqb y s) eqn:Hy; [reflexivity|].
  destruct (existsb (cancels y) k); simpl; auto.
  intros [->|H]; [now rewrite Nat.eqb_refl in Hy | auto].
Qed.

(** A callback whose handle was never invoked is registered as often as
    it was subscribed. *)
Lemma still_subscribed_uncancelled s script :
  existsb (cancels s) script = false ->
  count_occ Nat.eq_dec (still_subscribed script) s
  = List.length (filter (subscribes s) script).
Proof.
  induction script as [|c k IH]; simpl; [reflexivity|].
  intros Hc. apply orb_false_iff in Hc as [Hc Hk].
  destruct c as [y|y|y|y|]; simpl; auto.
  destruct (Nat.eqb y s) eqn:Hy.
  - apply Nat.eqb_eq in Hy; subst y. rewrite Hk. simpl.
    destruct (Nat.eq_dec s s); [|congruence]. now rewrite IH.
  - apply Nat.eqb_neq in Hy.
    destruct (existsb (cancels y) k); simpl; auto.
    destruct (Nat.eq_dec y s); [congruence|auto].
Qed.

(** A callback whose handle was invoked after its last subscription is
    not registered. *)
Lemma still_subscribed_cancelled s pre post :
  existsb (subscribes s) post = false ->
  ~ In s (still_subscribed (pre ++ CallHandle s :: post)).
Proof.
  intros Hpost. induction pre as [|c k IH]; simpl.
  - intros H. apply still_subscribed_In in H. congruence.
  - destruct c as [y|y|y|y|]; simpl; auto.
    destruct (existsb (cancels y) (k ++ CallHandle s :: post)) eqn:Hy; auto.
    intros [->|H]; [|auto].
    rewrite existsb_app in Hy. simpl in Hy.
    rewrite Nat.eqb_refl in Hy. simpl in Hy.
    now rewrite orb_true_r in Hy.
Qed.

(** *** After a handle was invoked *)

Section Gone.

Variable s : Subscriber.

Hypothesis never_again :
  forall x d, existsb (subscribes s) (behaviour x d) = false.

Lemma bind_gone r k :
  ~ In s (subscribers (bus r)) /\ calls_of s (out r) = 0 ->
  (forall o, ~ In s (subscribers o) ->
     ~ In s (subscribers (bus (k o))) /\ calls_of s (out (k o)) = 0) ->
  ~ In s (subscribers (bus (bind r k))) /\ calls_of s (out (bind r k)) = 0.
Proof.
  intros [Hb Hc] Hk. unfold bind.
  destruct (status r); auto.
  destruct (Hk (bus r) Hb) as [Hb' Hc'].
  cbn [tell bus out]. now rewrite calls_of_app, Hc, Hc'.
Qed.

Section Step.

Variable call : Subscriber -> T -> Observable -> Result T E.

Hypothesis call_gone :
  forall x d o, x <> s -> ~ In s (subscribers o) ->
    ~ In s (subscribers (bus (call x d o)))
    /\ calls_of s (out (call x d o)) = 0.

Lemma forEach_gone arr d :
  ~ In s arr ->
  forall o, ~ In s (subscribers o) ->
    ~ In s (subscribers (bus (forEach call arr d o)))
    /\ calls_of s (out (forEach call arr d o)) = 0.
Proof.
  induction arr as [|x arr IH]; intros Harr o Ho; [now simpl|].
  cbn [forEach]. apply bind_gone.
  - apply call_gone; [|exact Ho]. intros ->. apply Harr. now left.
  - intros o' Ho'. apply IH; [|exact Ho']. intros H. apply Harr. now right.
Qed.

Lemma run_gone body :
  existsb (subscribes s) body = false ->
  forall o, ~ In s (subscribers o) ->
    ~ In s (subscribers (bus (run call body o)))
    /\ calls_of s (out (run call body o)) = 0.
Proof.
  induction body as [|c body IH]; intros Hb o Ho; [now simpl|].
  simpl in Hb. apply orb_false_iff in Hb as [Hc Hb].
  destruct c as [y|y|y|y|]; cbn [run].
  - cbn [tell bus out]. now apply IH.
  - apply IH; [exact Hb|]. cbn [subscribe subscribers].
    rewrite in_app_iff. intros [H|[H|[]]]; [auto|].
    simpl in Hc. subst y. now rewrite Nat.eqb_refl in Hc.
  - cbn [tell bus out]. apply IH; [exact Hb|].
    rewrite unsubscribe_spec. tauto.
  - apply bind_gone; [|intros o' Ho'; now apply IH].
    unfold emit. cbn [tell bus out]. now apply forEach_gone.
  - now simpl.
Qed.

End Step.

Lemma invoke_gone fuel :
  forall x d o, x <> s -> ~ In s (subscribers o) ->
    ~ In s (subscribers (bus (invoke behaviour fuel x d o)))
    /\ calls_of s (out (invoke behaviour fuel x d o)) = 0.
Proof.
  induction fuel as [|n IH]; intros x d o Hx Ho; [now simpl|].
  cbn [invoke tell bus out].
  destruct (run_gone (invoke behaviour n) IH (behaviour x d)
              (never_again x d) o Ho) as [Hb Hc].
  split; [exact Hb|].
  change (Invoked x d :: ?l) with ([Invoked x d] ++ l).
  rewrite calls_of_app, Hc. unfold calls_of; simpl.
  apply Nat.eqb_neq in Hx. now rewrite Hx.
Qed.

(** Once the handle of [s] was invoked, whatever runs afterwards never
    calls [s] and leaves [s] unregistered, as long as [s] is not
    subscribed again. *)
Lemma exec_gone fuel script o :
  existsb (subscribes s) script = false ->
  ~ In s (subscribers (bus (exec behaviour fuel script (unsubscribe s o))))
  /\ calls_of s (out (exec behaviour fuel script (unsubscribe s o))) = 0.
Proof.
  intros Hs. unfold exec.
  apply (run_gone (invoke behaviour fuel) (invoke_gone fuel) script Hs).
  rewrite unsubscribe_spec. tauto.
Qed.

End Gone.

(** *** A callback that throws *)

Lemma run_throw call body rest :
  calm body = true ->
  forall o,
    status (run call (body ++ Throw :: rest) o) = Threw
    /\ invocations (out (run call (body ++ Throw :: rest) o)) = [].
Proof.
  induction body as [|c body IH]; intros Hc o; [now simpl|].
  simpl in Hc. apply andb_true_iff in Hc as [Hc Hb].
  destruct c; simpl in Hc; try discriminate; simpl; now apply IH.
Qed.

Lemma forEach_throw n (front : list Subscriber) s (back : list Subscriber) d body rest :
  (forall x, In x front -> calm (behaviour x d) = true) ->
  behaviour s d = body ++ Throw :: rest ->
  calm body = true ->
  forall o,
    status (forEach (invoke behaviour (S n)) (front ++ s :: back) d o) = Threw
    /\ invocations
         (out (forEach (invoke behaviour (S n)) (front ++ s :: back) d o))
       = map (fun x => (x, d)) front ++ [(s, d)].
Proof.
  intros Hpre Hs Hbody.
  induction front as [|x front IH]; intros o; cbn [app forEach map].
  - destruct (run_throw (invoke behaviour n) body rest Hbody o) as [Hst Hinv].
    rewrite bind_stopped
      by (cbn [invoke tell status]; rewrite Hs, Hst; discriminate).
    cbn [invoke tell status out]. rewrite Hs. split; [exact Hst|].
    rewrite invocations_app, Hinv. reflexivity.
  - destruct (run_calm (invoke behaviour n) (behaviour x d)
                (Hpre x (or_introl eq_refl)) o) as (Hst & Hinv & _).
    rewrite bind_returned by (cbn [invoke tell status]; exact Hst).
    destruct (IH (fun y Hy => Hpre y (or_intror Hy))
                (bus (invoke behaviour (S n) x d o))) as [Hst' Hinv'].
    cbn [tell status out]. split; [exact Hst'|].
    rewrite invocations_app, Hinv'.
    cbn [invoke tell out]. rewrite invocations_app, Hinv. reflexivity.
Qed.

(** *** The claims about the observable *)

(** C1, as the code has it.  On a new observable, after any sequence of
    subscribe calls and handle calls, one publish of [e] returns and calls
    exactly the registrations still in effect, each once, with [e] itself,
    in the order they were registered.  So a callback whose handle was
    never invoked is called once per subscribe call made with it, which is
    exactly once when the registered callbacks are distinct; a callback
    whose handle was invoked after its last subscription is not called.
    The callbacks are taken to return normally and not to publish
    themselves. *)
Theorem publish_calls_each_registration_once script e fuel n :
  forallb registration script = true ->
  (forall s, In s (still_subscribed script) -> calm (behaviour s e) = true) ->
  let prepared := exec behaviour fuel script create in
  let r := publish behaviour (S n) e (bus prepared) in
  status prepared = Returned
  /\ subscribers (bus prepared) = still_subscribed script
  /\ status r = Returned
  /\ publications (out r) = [e]
  /\ invocations (out r) = map (fun s => (s, e)) (still_subscribed script)
  /\ (forall s, existsb (cancels s) script = false ->
        calls_of s (out r) = List.length (filter (subscribes s) script))
  /\ (forall s pre post,
        script = pre ++ CallHandle s :: post ->
        existsb (subscribes s) post = false ->
        calls_of s (out r) = 0)
  /\ (NoDup (still_subscribed script) ->
      forall s, In s (still_subscribed script) -> calls_of s (out r) = 1).
Proof.
  intros Hreg Hcalm prepared r.
  destruct (run_registrations (invoke behaviour fuel) script Hreg create)
    as (Hst & _ & Hsub).
  cbn [create subscribers filter app] in Hsub.
  fold (exec behaviour fuel script create) in Hst, Hsub.
  fold prepared in Hst, Hsub.
  assert (Hcalm' : forall s, In s (subscribers (bus prepared)) ->
                             calm (behaviour s e) = true)
    by (rewrite Hsub; exact Hcalm).
  destruct (publish_snapshot n e (bus prepared) Hcalm') as (Hr & Hinv & Hpub).
  fold r in Hr, Hinv, Hpub. rewrite Hsub in Hinv.
  repeat split; auto.
  - intros s Hs. rewrite (calls_of_map s e _ _ Hinv).
    now apply still_subscribed_uncancelled.
  - intros s pre post -> Hpost. rewrite (calls_of_map s e _ _ Hinv).
    apply count_occ_not_In. now apply still_subscribed_cancelled.
  - intros Hnd s Hs. rewrite (calls_of_map s e _ _ Hinv).
    now apply NoDup_count_occ'.
Qed.

(** C2, as the code has it.  A callback that throws ends the publish:
    the callbacks registered before it have been called, the callbacks
    registered after it are not called with this event, and the exception
    reaches the caller of [emit]. *)
Theorem publish_stops_at_first_throw o e (front : list Subscriber) s (back : list Subscriber) body rest n :
  subscribers o = front ++ s :: back ->
  (forall x, In x front -> calm (behaviour x e) = true) ->
  behaviour s e = body ++ Throw :: rest ->
  calm body = true ->
  let r := publish behaviour (S n) e o in
  status r = Threw
  /\ invocations (out r) = map (fun x => (x, e)) front ++ [(s, e)].
Proof.
  intros Hsub Hpre Hs Hbody r. subst r. unfold publish, emit.
  rewrite Hsub.
  destruct (forEach_throw n front s back e body rest Hpre Hs Hbody o)
    as [Hst Hinv].
  cbn [tell status out]. split; [exact Hst|].
  cbn [app invocations]. exact Hinv.
Qed.

(** C3, as the code has it.  Once the handle of [s] was invoked, nothing
    that starts afterwards calls [s], provided [s] is not subscribed
    again.  A publish that is under way when a callback invokes the handle
    still calls every subscriber that was registered when it started, [s]
    included. *)
Theorem handle_stops_later_publishes_only s :
  (forall x d, existsb (subscribes s) (behaviour x d) = false) ->
  (forall o script fuel,
     existsb (subscribes s) script = false ->
     calls_of s (out (exec behaviour fuel script (unsubscribe s o))) = 0)
  /\ (forall o e n,
        (forall x, In x (subscribers o) -> calm (behaviour x e) = true) ->
        status (publish behaviour (S n) e o) = Returned
        /\ forall x, calls_of x (out (publish behaviour (S n) e o))
                     = count_occ Nat.eq_dec (subscribers o) x).
Proof.
  intros Hnever. split.
  - intros o script fuel Hs. now apply exec_gone.
  - intros o e n Hcalm.
    destruct (publish_snapshot n e o Hcalm) as (Hst & Hinv & _).
    split; [exact Hst|]. intros x. exact (calls_of_map x e _ _ Hinv).
Qed.

(** C4, as the code has it.  Invoking a handle twice in a row leaves the
    observable as invoking it once does, so whatever runs afterwards
    behaves the same; the second invocation returns normally and calls
    nothing.  As long as the same function is not subscribed anew, the
    callback is not called again after the first invocation, and a later
    invocation of the handle, whatever ran in between, changes nothing. *)
Theorem handle_twice_is_handle_once s o :
  (forall x d, existsb (subscribes s) (behaviour x d) = false) ->
  unsubscribe s (unsubscribe s o) = unsubscribe s o
  /\ (forall fuel,
        let twice := exec behaviour fuel [CallHandle s; CallHandle s] o in
        let once := exec behaviour fuel [CallHandle s] o in
        status twice = Returned /\ bus twice = bus once
        /\ invocations (out twice) = []
        /\ invocations (out once) = [])
  /\ (forall fuel script,
        exec behaviour fuel script (unsubscribe s (unsubscribe s o))
        = exec behaviour fuel script (unsubscribe s o))
  /\ (forall fuel script,
        existsb (subscribes s) script = false ->
        let later := exec behaviour fuel script (unsubscribe s o) in
        calls_of s (out later) = 0
        /\ unsubscribe s (bus later) = bus later).
Proof.
  intros Hnever. split; [apply unsubscribe_twice|]. split; [|split].
  - intros fuel twice once. subst twice once. unfold exec.
    cbn [run tell ret status bus out app invocations].
    now rewrite unsubscribe_twice.
  - intros fuel script. now rewrite unsubscribe_twice.
  - intros fuel script Hs later. subst later.
    destruct (exec_gone s Hnever fuel script o Hs) as [Hbus Hcalls].
    split; [exact Hcalls|]. now apply unsubscribe_absent.
Qed.

End Facts.

(** C1 on a run: three callbacks subscribed, the second cancelled. *)
Lemma publish_calls_each_registration_once_witness :
  forallb registration Samples.three_less_one = true
  /\ invocations
       (out (publish Samples.quiet 1 7
               (bus (exec Samples.quiet 0 Samples.three_less_one create))))
     = [(1, 7); (3, 7)].
Proof.
  split; [reflexivity|].
  exact (proj1 (proj2 (proj2 (proj2 (proj2
    (publish_calls_each_registration_once Samples.quiet
       Samples.three_less_one 7 0 0 eq_refl (fun s _ => eq_refl))))))).
Defined.

(** C1 fails as stated: a callback subscribed twice is registered twice
    and one publish calls it twice, not exactly once. *)
Lemma callback_subscribed_twice_is_called_twice :
  subscribers (bus (exec Samples.quiet 0 Samples.twice_the_same create))
  = [1; 1]
  /\ status
       (publish Samples.quiet 1 7
          (bus (exec Samples.quiet 0 Samples.twice_the_same create)))
     = Returned
  /\ invocations
       (out (publish Samples.quiet 1 7
               (bus (exec Samples.quiet 0 Samples.twice_the_same create))))
     = [(1, 7); (1, 7)]
  /\ calls_of 1
       (out (publish Samples.quiet 1 7
               (bus (exec Samples.quiet 0 Samples.twice_the_same create))))
     = 2.
Proof. repeat split. Qed.

(** C4 fails as stated: the handle of a callback, invoked again after the
    same function was subscribed anew, is no no-op; it removes the new
    registration, and the callback misses the next event. *)
Lemma spent_handle_removes_new_registration :
  subscribers (bus (exec Samples.quiet 0 Samples.subscribed_anew create))
  = [1]
  /\ subscribers
       (bus (exec Samples.quiet 0
               (Samples.subscribed_anew ++ [CallHandle 1]) create))
     = []
  /\ calls_of 1
       (out (publish Samples.quiet 1 7
               (bus (exec Samples.quiet 0 Samples.subscribed_anew create))))
     = 1
  /\ calls_of 1
       (out (publish Samples.quiet 1 7
               (bus (exec Samples.quiet 0
                       (Samples.subscribed_anew ++ [CallHandle 1]) create))))
     = 0.
Proof. repeat split. Qed.

(** C2 fails as stated: subscriber 1 throws, and subscriber 2, registered
    after it, is never called. *)
Lemma throwing_subscriber_blocks_the_rest :
  subscribers Samples.two = [1; 2]
  /\ Samples.faulty 1 7 = [Throw]
  /\ status (publish Samples.faulty 2 7 Samples.two) = Threw
  /\ out (publish Samples.faulty 2 7 Samples.two)
     = [Published 7; Invoked 1 7]
  /\ calls_of 2 (out (publish Samples.faulty 2 7 Samples.two)) = 0.
Proof. repeat split. Qed.

Lemma publish_stops_at_first_throw_witness :
  subscribers Samples.two = [] ++ 1 :: [2]
  /\ Samples.faulty 1 7 = [] ++ Throw :: []
  /\ status (publish Samples.faulty 1 7 Samples.two) = Threw
  /\ invocations (out (publish Samples.faulty 1 7 Samples.two)) = [(1, 7)].
Proof.
  split; [reflexivity|]. split; [reflexivity|].
  exact (publish_stops_at_first_throw Samples.faulty Samples.two 7
           [] 1 [2] [] [] 0 eq_refl (fun x (H : In x []) => match H with end)
           eq_refl eq_refl).
Defined.

(** C3 fails as stated: subscriber 1 invokes the handle of subscriber 2
    during a publish, and subscriber 2 is called by that publish all the
    same, after its handle was invoked. *)
Lemma handle_during_publish_comes_too_late :
  out (publish Samples.meddling 2 7 Samples.two)
  = [Published 7; Invoked 1 7; Cancelled 2; Invoked 2 7; Did tt]
  /\ subscribers (bus (publish Samples.meddling 2 7 Samples.two)) = [1].
Proof. split; reflexivity. Qed.

Lemma meddling_never_subscribes s x d :
  existsb (subscribes s) (Samples.meddling x d) = false.
Proof. unfold Samples.meddling. now destruct (Nat.eqb x 1). Qed.

Lemma meddling_calm x d : calm (Samples.meddling x d) = true.
Proof. unfold Samples.meddling. now destruct (Nat.eqb x 1). Qed.

Lemma handle_stops_later_publishes_only_witness :
  calls_of 2
    (out (exec Samples.meddling 3 Samples.publish_twice
            (unsubscribe 2 Samples.two))) = 0
  /\ calls_of 2 (out (publish Samples.meddling 1 7 Samples.two)) = 1.
Proof.
  destruct (handle_stops_later_publishes_only Samples.meddling 2
              (meddling_never_subscribes 2)) as [Hlater Hnow].
  split.
  - exact (Hlater Samples.two Samples.publish_twice 3 eq_refl).
  - exact (proj2 (Hnow Samples.two 7 0 (fun x _ => meddling_calm x 7)) 2).
Defined.

Lemma handle_twice_is_handle_once_witness :
  unsubscribe 2 (unsubscribe 2 Samples.two) = unsubscribe 2 Samples.two
  /\ calls_of 2
       (out (exec Samples.meddling 3 Samples.publish_twice
               (unsubscribe 2 Samples.two))) = 0.
Proof.
  destruct (handle_twice_is_handle_once Samples.meddling 2 Samples.two
              (meddling_never_subscribes 2)) as (Hsame & _ & _ & Hlater).
  split; [exact Hsame|].
  exact (proj1 (Hlater 3 Samples.publish_twice eq_refl)).
Defined.

End ObservableFacts.

(** ** Facts about the server *)

Module ServerFacts.

Import Json Zod Server ObservableFacts.

Open Scope string_scope.

(** *** Publishing to the streams *)

Lemma invoke_stream (c : Conn) (event : ChatEvent) (o : Observable) :
  invoke sse_subscriber 1 c event o
  = {| status := Returned; bus := o; out := delivery event c |}.
Proof. reflexivity. Qed.

Lemma forEach_streams (arr : list Conn) (event : ChatEvent) (o : Observable) :
  forEach (invoke sse_subscriber 1) arr event o
  = {| status := Returned; bus := o; out := flat_map (delivery event) arr |}.
Proof.
  induction arr as [|c arr IH]; [reflexivity|].
  cbn [forEach]. rewrite invoke_stream.
  unfold bind. cbn [status bus out]. rewrite IH. reflexivity.
Qed.

Lemma script_emit (event : ChatEvent) (o : Observable) :
  script [CallEmit event] o
  = {| status := Returned; bus := o;
       out := broadcast event (subscribers o) |}.
Proof.
  unfold script, exec. cbn [run]. unfold emit.
  rewrite forEach_streams.
  cbn [tell ret bind status bus out]. unfold broadcast, tell, ret.
  cbn [status bus out]. now rewrite app_nil_r.
Qed.

Lemma script_close (c : Conn) (event : ChatEvent) (o : Observable) :
  script [CallHandle c; CallEmit event] o
  = {| status := Returned; bus := unsubscribe c o;
       out := Cancelled c
              :: broadcast event (subscribers (unsubscribe c o)) |}.
Proof.
  unfold script, exec. cbn [run]. unfold emit.
  rewrite forEach_streams.
  cbn [tell ret bind status bus out]. unfold broadcast, tell, ret.
  cbn [status bus out app]. now rewrite app_nil_r.
Qed.

Lemma publications_deliveries (event : ChatEvent) (arr : list Conn) :
  publications (flat_map (delivery event) arr) = [].
Proof. induction arr as [|c arr IH]; [reflexivity | exact IH]. Qed.

Lemma publications_broadcast (event : ChatEvent) (arr : list Conn) :
  publications (broadcast event arr) = [event].
Proof.
  unfold broadcast. cbn [publications]. now rewrite publications_deliveries.
Qed.

Lemma written_absent (c : Conn) (event : ChatEvent) (arr : list Conn) :
  ~ In c arr -> written c (flat_map (delivery event) arr) = [].
Proof.
  induction arr as [|x arr IH]; intros Hc; [reflexivity|].
  cbn [flat_map delivery app written].
  destruct (Nat.eqb x c) eqn:Hx.
  - apply Nat.eqb_eq in Hx. subst x. exfalso. apply Hc. now left.
  - apply IH. intros H. apply Hc. now right.
Qed.

(** A stream registered once gets the two chunks of the event, once. *)
Lemma written_present (c : Conn) (event : ChatEvent) (arr : list Conn) :
  NoDup arr -> In c arr ->
  written c (flat_map (delivery event) arr)
  = [ "event: message" ++ char LF;
      "data: " ++ stringify (toJSON event) ++ char LF ++ char LF ].
Proof.
  induction arr as [|x arr IH]; intros Hnd Hc; [destruct Hc|].
  inversion Hnd as [|? ? Hx Hnd']; subst.
  cbn [flat_map delivery app written].
  destruct (Nat.eqb x c) eqn:Hxc.
  - apply Nat.eqb_eq in Hxc. subst x.
    now rewrite (written_absent c event arr Hx).
  - apply Nat.eqb_neq in Hxc. destruct Hc as [->|Hc]; [congruence|].
    now apply IH.
Qed.

Lemma append_assoc (a b c : string) : (a ++ b) ++ c = a ++ b ++ c.
Proof. induction a as [|x a IH]; simpl; [reflexivity | now rewrite IH]. Qed.

Lemma concat_chunks (event : ChatEvent) :
  String.concat EmptyString
    [ "event: message" ++ char LF;
      "data: " ++ stringify (toJSON event) ++ char LF ++ char LF ]
  = frame event.
Proof. reflexivity. Qed.

Lemma wire_broadcast (c : Conn) (event : ChatEvent) (arr : list Conn) :
  NoDup arr -> In c arr -> wire c (broadcast event arr) = frame event.
Proof.
  intros Hnd Hc. unfold wire, broadcast. cbn [written].
  rewrite (written_present c event arr Hnd Hc). apply concat_chunks.
Qed.

Lemma wire_broadcast_absent (c : Conn) (event : ChatEvent) (arr : list Conn) :
  ~ In c arr -> wire c (broadcast event arr) = EmptyString.
Proof.
  intros Hc. unfold wire, broadcast. cbn [written].
  now rewrite (written_absent c event arr Hc).
Qed.

(** *** The schemas *)

Lemma signInSchema_needs_string (fields : list (string * JSON)) :
  is_string (get "name" fields) = false ->
  signInSchema (JObj fields)
  = inl (invalid_type ["name"] "string" (get "name" fields)).
Proof.
  unfold signInSchema, z_string.
  destruct (get "name" fields) as [[ | | | | | ]|]; simpl;
    intros H; try discriminate; reflexivity.
Qed.

Lemma messageSchema_needs_string (fields : list (string * JSON)) :
  is_string (get "message" fields) = false ->
  success (messageSchema (JObj fields)) = false.
Proof.
  unfold messageSchema, z_string.
  destruct (get "message" fields) as [[ | | | | | ]|]; simpl;
    intros H; try discriminate; reflexivity.
Qed.

Lemma userSchema_accepts (u : User) : userSchema (userJSON u) = inr u.
Proof. destruct u. reflexivity. Qed.

Lemma messageSchema_accepts (fields ufields : list (string * JSON))
  (m i n : string) :
  get "message" fields = Some (JStr m) ->
  get "user" fields = Some (JObj ufields) ->
  get "id" ufields = Some (JStr i) ->
  get "name" ufields = Some (JStr n) ->
  messageSchema (JObj fields)
  = inr {| message := m; user := {| id := i; name := n |} |}.
Proof.
  intros Hm Hu Hi Hn. unfold messageSchema, userSchemaAt.
  rewrite Hm, Hu. cbn [z_string]. cbn [app]. now rewrite Hi, Hn.
Qed.

(** *** The states the server can be in *)

Lemma NoDup_snoc (l : list nat) (c : nat) :
  NoDup l -> ~ In c l -> NoDup (l ++ [c]).
Proof.
  induction l as [|x l IH]; intros Hnd Hc; simpl.
  - constructor; [tauto | constructor].
  - inversion Hnd as [|? ? Hx Hnd']; subst. constructor.
    + rewrite in_app_iff. simpl. intros [H|[H|[]]]; [tauto|].
      subst. apply Hc. now left.
    + apply IH; [exact Hnd'|]. intros H. apply Hc. now right.
Qed.

Lemma listener_absent (c : Conn) (ls : list (Conn * User)) :
  ~ In c (map fst ls) -> listener c ls = None.
Proof.
  induction ls as [|[c' u] ls IH]; simpl; [reflexivity|]. intros H.
  destruct (Nat.eqb c' c) eqn:Hc.
  - apply Nat.eqb_eq in Hc. tauto.
  - apply IH. tauto.
Qed.

Lemma listener_app (c : Conn) (ls ls' : list (Conn * User)) :
  listener c (ls ++ ls')
  = match listener c ls with
    | Some u => Some u
    | None => listener c ls'
    end.
Proof.
  induction ls as [|[c' u] ls IH]; simpl; [reflexivity|].
  now destruct (Nat.eqb c' c).
Qed.

Section Routes.

Variable v4 : nat -> string.

Lemma start_well_formed : well_formed start.
Proof.
  repeat split; simpl; try tauto. constructor.
Qed.

Lemma handle_well_formed (q : Request) (st : State) :
  well_formed st -> well_formed (server (handle v4 q st)).
Proof.
  intros (Hnd & Hsub & Hls). destruct q as [query|c|body|body]; simpl.
  - unfold sse. destruct (userSchema query) as [e|u]; simpl.
    + now repeat split.
    + repeat split; simpl.
      * apply NoDup_snoc; [exact Hnd|]. intros H. apply Hsub in H. lia.
      * intros c. rewrite in_app_iff. simpl.
        intros [H|[<-|[]]]; [apply Hsub in H|]; lia.
      * intros c. rewrite map_app, in_app_iff. simpl.
        intros [H|[<-|[]]]; [apply Hls in H|]; lia.
  - unfold close. destruct (listener c (closeListeners st)) as [u|].
    + rewrite script_close. repeat split; simpl.
      * now apply NoDup_filter.
      * intros x Hx. apply filter_In in Hx. now apply Hsub.
      * exact Hls.
    + now repeat split.
  - unfold register. destruct (signInSchema body) as [e|n].
    + now repeat split.
    + rewrite script_emit. now repeat split.
  - unfold postMessage. destruct (messageSchema body) as [e|m].
    + now repeat split.
    + rewrite script_emit. now repeat split.
Qed.

Lemma serve_cons (q : Request) (qs : list Request) (st : State) :
  fst (serve v4 (q :: qs) st) = fst (serve v4 qs (server (handle v4 q st)))
  /\ snd (serve v4 (q :: qs) st)
     = (trace (handle v4 q st)
        ++ snd (serve v4 qs (server (handle v4 q st))))%list.
Proof.
  cbn [serve]. now destruct (serve v4 qs (server (handle v4 q st))).
Qed.

Lemma serve_app (qs qs' : list Request) (st : State) :
  fst (serve v4 (qs ++ qs') st) = fst (serve v4 qs' (fst (serve v4 qs st))).
Proof.
  revert st. induction qs as [|q qs IH]; intros st; [reflexivity|].
  rewrite <- app_comm_cons.
  rewrite (proj1 (serve_cons q (qs ++ qs') st)).
  rewrite (proj1 (serve_cons q qs st)). apply IH.
Qed.

Lemma serve_well_formed (qs : list Request) (st : State) :
  well_formed st -> well_formed (fst (serve v4 qs st)).
Proof.
  revert st. induction qs as [|q qs IH]; intros st Hwf; [exact Hwf|].
  rewrite (proj1 (serve_cons q qs st)). apply IH.
  now apply handle_well_formed.
Qed.

Lemma reachable_well_formed (st : State) :
  reachable v4 st -> well_formed st.
Proof.
  intros [qs <-]. apply serve_well_formed, start_well_formed.
Qed.

Lemma reachable_serve (qs : list Request) (st : State) :
  reachable v4 st -> reachable v4 (fst (serve v4 qs st)).
Proof.
  intros [qs0 <-]. exists (qs0 ++ qs)%list. apply serve_app.
Qed.

Lemma reachable_handle (q : Request) (st : State) :
  reachable v4 st -> reachable v4 (server (handle v4 q st)).
Proof.
  intros H. apply (reachable_serve [q]) in H.
  now rewrite (proj1 (serve_cons q [] st)) in H.
Qed.

(** A close listener, once added, stays, with the identity it captured. *)
Lemma listener_kept (q : Request) (st : State) (c : Conn) (u : User) :
  listener c (closeListeners st) = Some u ->
  listener c (closeListeners (server (handle v4 q st))) = Some u.
Proof.
  intros H. destruct q as [query|c'|body|body]; simpl.
  - unfold sse. destruct (userSchema query); simpl; [exact H|].
    now rewrite listener_app, H.
  - unfold close. now destruct (listener c' (closeListeners st)).
  - unfold register. now destruct (signInSchema body).
  - unfold postMessage. now destruct (messageSchema body).
Qed.

Lemma listener_kept_serve (qs : list Request) (st : State) (c : Conn)
  (u : User) :
  listener c (closeListeners st) = Some u ->
  listener c (closeListeners (fst (serve v4 qs st))) = Some u.
Proof.
  revert st. induction qs as [|q qs IH]; intros st H; [exact H|].
  rewrite (proj1 (serve_cons q qs st)). apply IH. now apply listener_kept.
Qed.

(** An accepted stream gets a close listener that holds the validated
    identity. *)
Lemma sse_adds_listener (query : JSON) (u : User) (st : State) :
  well_formed st ->
  userSchema query = inr u ->
  listener (streams st) (closeListeners (server (sse query st))) = Some u.
Proof.
  intros (_ & _ & Hls) Hq. unfold sse. rewrite Hq. simpl.
  rewrite listener_app, listener_absent.
  - simpl. now rewrite Nat.eqb_refl.
  - intros H. apply Hls in H. lia.
Qed.

Lemma uuids_grow (q : Request) (st : State) :
  uuids st <= uuids (server (handle v4 q st)).
Proof.
  destruct q as [query|c|body|body]; simpl.
  - unfold sse. destruct (userSchema query); simpl; lia.
  - unfold close. destruct (listener c (closeListeners st)); simpl; lia.
  - unfold register. destruct (signInSchema body); simpl; lia.
  - unfold postMessage. destruct (messageSchema body); simpl; lia.
Qed.

Lemma uuids_grow_serve (qs : list Request) (st : State) :
  uuids st <= uuids (fst (serve v4 qs st)).
Proof.
  revert st. induction qs as [|q qs IH]; intros st; [simpl; lia|].
  rewrite (proj1 (serve_cons q qs st)).
  specialize (IH (server (handle v4 q st))).
  pose proof (uuids_grow q st). lia.
Qed.

(** *** The claims about the routes *)

(** C5, as the code has it.  A body that fails its schema gets status 400
    and nothing is published: so for a register body without a string
    [name] (left out, or not a string) and for a message body whose
    [message] is not a string.  The empty name is a string and passes
    [z.string()]: it is registered like any other name, with status 200
    and one sign-in event. *)
Theorem rejected_input_publishes_nothing
  (reg_fields msg_fields : list (string * JSON)) (st : State) :
  is_string (get "name" reg_fields) = false ->
  is_string (get "message" msg_fields) = false ->
  register v4 (JObj reg_fields) st
  = {| response :=
         Replied 400
           (FailedResult
              (invalid_type ["name"] "string" (get "name" reg_fields)));
       server := st; trace := [] |}
  /\ (exists e,
        postMessage v4 (JObj msg_fields) st
        = {| response := Replied 400 (Error e); server := st; trace := [] |})
  /\ (forall body,
        success (signInSchema body) = false ->
        exists e,
          register v4 body st
          = {| response := Replied 400 (FailedResult e);
               server := st; trace := [] |})
  /\ (forall body,
        success (messageSchema body) = false ->
        exists e,
          postMessage v4 body st
          = {| response := Replied 400 (Error e);
               server := st; trace := [] |})
  /\ (let u := {| id := v4 (uuids st); name := EmptyString |} in
      let r := register v4 (JObj [("name", JStr EmptyString)]) st in
      response r = Replied 200 (Json (userJSON u))
      /\ publications (trace r) = [UserSignedIn u]).
Proof.
  intros Hname Hmsg.
  assert (Hreg : forall body, success (signInSchema body) = false ->
            exists e, register v4 body st
                      = {| response := Replied 400 (FailedResult e);
                           server := st; trace := [] |}).
  { intros body Hb. unfold register.
    destruct (signInSchema body) as [e|n]; [now exists e | discriminate]. }
  assert (Hpost : forall body, success (messageSchema body) = false ->
            exists e, postMessage v4 body st
                      = {| response := Replied 400 (Error e);
                           server := st; trace := [] |}).
  { intros body Hb. unfold postMessage.
    destruct (messageSchema body) as [e|m]; [now exists e | discriminate]. }
  split; [|split; [|split; [|split]]].
  - unfold register. now rewrite (signInSchema_needs_string _ Hname).
  - apply Hpost. now apply messageSchema_needs_string.
  - exact Hreg.
  - exact Hpost.
  - unfold register.
    change (signInSchema (JObj [("name", JStr EmptyString)]))
      with (@inr ZodError string EmptyString).
    cbv beta iota. rewrite script_emit. cbn [respond status out response trace].
    now rewrite publications_broadcast.
Qed.

(** C6, as the code has it.  The callback of a stream writes every event
    as two chunks, the line [event: message] and the line [data: ] with
    the JSON text of the event followed by an empty line.  The JSON text
    is an object with the fields [discriminant] and [data], in this order,
    and the discriminant is one of [UserSignedIn], [UserMessage] and
    [UserSignedOut]. *)
Theorem stream_writes_event_frames (c : Conn) (event : ChatEvent)
  (o : Observable) :
  let r := invoke sse_subscriber 1 c event o in
  status r = Returned
  /\ written c (out r)
     = [ "event: message" ++ char LF;
         "data: " ++ stringify (toJSON event) ++ char LF ++ char LF ]
  /\ wire c (out r)
     = "event: message" ++ char LF
       ++ "data: " ++ stringify (toJSON event) ++ char LF ++ char LF
  /\ stringify (toJSON event)
     = "{" ++ quote "discriminant" ++ ":" ++ quote (discriminant event)
       ++ "," ++ quote "data" ++ ":" ++ stringify (dataJSON event) ++ "}"
  /\ In (discriminant event) ["UserSignedIn"; "UserMessage"; "UserSignedOut"].
Proof.
  intros r. subst r. rewrite invoke_stream. cbn [status out].
  split; [reflexivity|]. split; [|split; [|split]].
  - unfold delivery. cbn [written]. now rewrite Nat.eqb_refl.
  - unfold wire, delivery. cbn [written]. rewrite Nat.eqb_refl.
    apply concat_chunks.
  - unfold toJSON. cbn [stringify map fst snd String.concat].
    generalize (stringify (dataJSON event)); intros body.
    generalize (quote (discriminant event)); intros tag.
    cbn. rewrite append_assoc. reflexivity.
  - destruct event; simpl; tauto.
Qed.

(** *** The close of a stream *)

Lemma dispatch_core (q : Request) (p : Process) :
  core (process (dispatch v4 q p)) = core p
  \/ core (process (dispatch v4 q p)) = server (handle v4 q (core p)).
Proof.
  destruct q as [query|c|body|body]; try (right; reflexivity).
  cbn [dispatch]. destruct (existsb (Nat.eqb c) (closeEmitted p));
    [now left|].
  destruct (listener c (closeListeners (core p))); [now right | now left].
Qed.

Lemma dispatch_all_cons (q : Request) (qs : list Request) (p : Process) :
  fst (dispatch_all v4 (q :: qs) p)
  = fst (dispatch_all v4 qs (process (dispatch v4 q p))).
Proof.
  cbn [dispatch_all]. now destruct (dispatch_all v4 qs (process (dispatch v4 q p))).
Qed.

Lemma dispatch_all_reachable (qs : list Request) (p : Process) :
  reachable v4 (core p) ->
  reachable v4 (core (fst (dispatch_all v4 qs p))).
Proof.
  revert p. induction qs as [|q qs IH]; intros p Hp; [exact Hp|].
  rewrite dispatch_all_cons. apply IH.
  destruct (dispatch_core q p) as [->| ->];
    [exact Hp | now apply reachable_handle].
Qed.

Lemma attainable_reachable (p : Process) :
  attainable v4 p -> reachable v4 (core p).
Proof.
  intros [qs <-]. apply dispatch_all_reachable. now exists [].
Qed.

Lemma dispatch_all_listener (qs : list Request) (p : Process) (c : Conn)
  (u : User) :
  listener c (closeListeners (core p)) = Some u ->
  listener c (closeListeners (core (fst (dispatch_all v4 qs p)))) = Some u.
Proof.
  revert p. induction qs as [|q qs IH]; intros p Hp; [exact Hp|].
  rewrite dispatch_all_cons. apply IH.
  destruct (dispatch_core q p) as [->| ->];
    [exact Hp | now apply listener_kept].
Qed.

(** A request that has emitted ['close'] stays so. *)
Lemma dispatch_all_closed (qs : list Request) (p : Process) (c : Conn) :
  existsb (Nat.eqb c) (closeEmitted p) = true ->
  existsb (Nat.eqb c) (closeEmitted (fst (dispatch_all v4 qs p))) = true.
Proof.
  revert p. induction qs as [|q qs IH]; intros p Hp; [exact Hp|].
  rewrite dispatch_all_cons. apply IH.
  destruct q as [query|c'|body|body]; try exact Hp.
  cbn [dispatch]. destruct (existsb (Nat.eqb c') (closeEmitted p));
    [exact Hp|].
  destruct (listener c' (closeListeners (core p))); [|exact Hp].
  cbn [process closeEmitted existsb]. rewrite Hp. apply orb_true_r.
Qed.

(** C7.  A stream accepted with the validated identity [u] keeps a close
    listener with [u].  The first close signal of its request invokes the
    handle of the stream and then publishes exactly one sign-out event
    with [u]: every other stream still subscribed receives its frame, the
    closed stream receives nothing.  A further close signal for the same
    request, whatever was handled in between, reaches no listener: nothing
    is unsubscribed, published or written, and the server stays as it
    is. *)
Theorem first_close_signal_signs_out_once (p0 : Process) (query : JSON)
  (u : User) (qs qs' : list Request) :
  attainable v4 p0 ->
  userSchema query = inr u ->
  let c := streams (core p0) in
  let p := fst (dispatch_all v4 qs (process (dispatch v4 (GetSse query) p0))) in
  existsb (Nat.eqb c) (closeEmitted p) = false ->
  let o := dispatch v4 (CloseSignal c) p in
  let later := fst (dispatch_all v4 qs' (process o)) in
  listener c (closeListeners (core p)) = Some u
  /\ seen o
     = Cancelled c
       :: broadcast (UserSignedOut u)
            (subscribers (unsubscribe c (events (core p))))
  /\ publications (seen o) = [UserSignedOut u]
  /\ events (core (process o)) = unsubscribe c (events (core p))
  /\ (forall c', In c' (subscribers (events (core p))) -> c' <> c ->
        wire c' (seen o) = frame (UserSignedOut u))
  /\ wire c (seen o) = EmptyString
  /\ dispatch v4 (CloseSignal c) later = idle later.
Proof.
  intros Hatt Hq c p Hfirst o later.
  assert (Hreach0 : reachable v4 (core p0)) by now apply attainable_reachable.
  assert (Hl : listener c (closeListeners (core p)) = Some u).
  { subst p. apply dispatch_all_listener. cbn [dispatch process core handle].
    apply sse_adds_listener; [|exact Hq].
    exact (reachable_well_formed (core p0) Hreach0). }
  assert (Hwf : well_formed (core p)).
  { apply reachable_well_formed. subst p. apply dispatch_all_reachable.
    cbn [dispatch process core].
    exact (reachable_handle (GetSse query) (core p0) Hreach0). }
  destruct Hwf as (Hnd & _ & _).
  assert (Ho : o = {| reply := NoResponse;
                      process :=
                        {| core := {| events := unsubscribe c (events (core p));
                                      closeListeners := closeListeners (core p);
                                      streams := streams (core p);
                                      uuids := uuids (core p) |};
                           closeEmitted := c :: closeEmitted p |};
                      seen := Cancelled c
                              :: broadcast (UserSignedOut u)
                                   (subscribers
                                      (unsubscribe c (events (core p)))) |}).
  { subst o. cbn [dispatch]. rewrite Hfirst, Hl. unfold close.
    rewrite Hl, script_close. reflexivity. }
  assert (Hlater : existsb (Nat.eqb c) (closeEmitted later) = true).
  { subst later. apply dispatch_all_closed. rewrite Ho.
    cbn [process closeEmitted existsb]. now rewrite Nat.eqb_refl. }
  split; [exact Hl|]. rewrite Ho. cbn [seen process core events].
  split; [reflexivity|]. split; [|split; [reflexivity|split; [|split]]].
  - cbn [publications]. apply publications_broadcast.
  - intros c' Hin Hne.
    change (wire c' (broadcast (UserSignedOut u)
                       (subscribers (unsubscribe c (events (core p)))))
            = frame (UserSignedOut u)).
    apply wire_broadcast.
    + now apply NoDup_filter.
    + apply unsubscribe_spec. now split.
  - change (wire c (broadcast (UserSignedOut u)
                       (subscribers (unsubscribe c (events (core p)))))
            = EmptyString).
    apply wire_broadcast_absent. rewrite unsubscribe_spec. tauto.
  - cbn [dispatch]. now rewrite Hlater.
Qed.

(** C8.  Registering with a body whose [name] is a string answers 200
    with the identity [{id, name}]: the id is the result of a new call of
    [v4], so it is not empty and differs from every id minted by another
    call, before or later; the name is the one submitted.  One sign-in
    event with this identity is published, and every stream subscribed at
    that time receives it as one frame.  What is assumed of [v4] is what
    uuid promises: its results are not empty and do not repeat. *)
Theorem register_mints_identity_and_broadcasts (st : State)
  (fields : list (string * JSON)) (n : string) :
  (forall k, v4 k <> EmptyString) ->
  (forall i j, v4 i = v4 j -> i = j) ->
  reachable v4 st ->
  get "name" fields = Some (JStr n) ->
  let u := {| id := v4 (uuids st); name := n |} in
  let r := register v4 (JObj fields) st in
  response r = Replied 200 (Json (JObj [("id", JStr (id u)); ("name", JStr n)]))
  /\ id u <> EmptyString
  /\ (forall k, k <> uuids st -> v4 k <> id u)
  /\ (forall qs, uuids st < uuids (fst (serve v4 qs (server r))))
  /\ publications (trace r) = [UserSignedIn u]
  /\ events (server r) = events st
  /\ (forall c, In c (subscribers (events st)) ->
        written c (trace r)
        = [ "event: message" ++ char LF;
            "data: " ++ stringify (toJSON (UserSignedIn u))
              ++ char LF ++ char LF ]
        /\ wire c (trace r) = frame (UserSignedIn u)).
Proof.
  intros Hne Hinj Hreach Hname u r.
  destruct (reachable_well_formed st Hreach) as (Hnd & _ & _).
  assert (Hr : r = {| response := Replied 200 (Json (userJSON u));
                      server := {| events := events st;
                                   closeListeners := closeListeners st;
                                   streams := streams st;
                                   uuids := S (uuids st) |};
                      trace := broadcast (UserSignedIn u)
                                 (subscribers (events st)) |}).
  { subst r. unfold register. cbn [signInSchema]. rewrite Hname.
    cbn [z_string]. fold u. now rewrite script_emit. }
  rewrite Hr. cbn [response server trace events uuids].
  repeat split.
  - apply Hne.
  - intros k Hk Heq. apply Hk. now apply Hinj.
  - intros qs.
    pose proof (uuids_grow_serve qs
                  {| events := events st;
                     closeListeners := closeListeners st;
                     streams := streams st;
                     uuids := S (uuids st) |}) as H.
    cbn [uuids] in H. lia.
  - apply publications_broadcast.
  - unfold broadcast. cbn [written]. now apply written_present.
  - now apply wire_broadcast.
Qed.

(** C9.  Posting a body with a string [message] and a [user] with string
    [id] and [name] answers 204 without a payload and publishes one
    message event: its id is the result of a new call of [v4], its user
    and its message are the ones submitted.  Every stream subscribed at
    that time receives the event as one frame, the stream of the sender
    among them. *)
Theorem message_is_acknowledged_and_broadcast (st : State)
  (fields ufields : list (string * JSON)) (m i n : string) :
  reachable v4 st ->
  get "message" fields = Some (JStr m) ->
  get "user" fields = Some (JObj ufields) ->
  get "id" ufields = Some (JStr i) ->
  get "name" ufields = Some (JStr n) ->
  let sender := {| id := i; name := n |} in
  let event := UserMessage (v4 (uuids st)) sender m in
  let r := postMessage v4 (JObj fields) st in
  response r = Replied 204 Empty
  /\ publications (trace r) = [event]
  /\ uuids (server r) = S (uuids st)
  /\ events (server r) = events st
  /\ (forall c, In c (subscribers (events st)) ->
        wire c (trace r) = frame event)
  /\ (forall c, listener c (closeListeners st) = Some sender ->
        In c (subscribers (events st)) ->
        wire c (trace r) = frame event).
Proof.
  intros Hreach Hm Hu Hi Hn sender event r.
  destruct (reachable_well_formed st Hreach) as (Hnd & _ & _).
  assert (Hr : r = {| response := Replied 204 Empty;
                      server := {| events := events st;
                                   closeListeners := closeListeners st;
                                   streams := streams st;
                                   uuids := S (uuids st) |};
                      trace := broadcast event (subscribers (events st)) |}).
  { subst r. unfold postMessage.
    rewrite (messageSchema_accepts fields ufields m i n Hm Hu Hi Hn).
    cbn [user message]. fold sender. fold event. now rewrite script_emit. }
  rewrite Hr. cbn [response server trace events uuids].
  repeat split.
  - apply publications_broadcast.
  - intros c Hc. now apply wire_broadcast.
  - intros c _ Hc. now apply wire_broadcast.
Qed.

(** C10.  Opening a stream publishes nothing, whether the identity is
    accepted or not, and neither a close signal nor a posted message
    publishes a sign-in event: sign-in events come from the register route
    alone.  Any identity [{id, name}] can open a stream without having
    registered: on a fresh server its stream opens, and on its close a
    sign-out event for it is published though no sign-in event ever
    was. *)
Theorem opening_a_stream_publishes_nothing :
  (forall query st, trace (sse query st) = [])
  /\ (forall c st, joined (trace (close c st)) = [])
  /\ (forall body st, joined (trace (postMessage v4 body st)) = [])
  /\ (forall u,
        let tr := snd (serve v4 [GetSse (userJSON u); CloseSignal 0] start) in
        publications tr = [UserSignedOut u] /\ joined tr = []).
Proof.
  split; [|split; [|split]].
  - intros query st. unfold sse. now destruct (userSchema query).
  - intros c st. unfold close.
    destruct (listener c (closeListeners st)) as [u|]; [|reflexivity].
    rewrite script_close. cbn [trace out]. unfold joined. cbn [publications].
    now rewrite publications_broadcast.
  - intros body st. unfold postMessage.
    destruct (messageSchema body) as [e|m]; [reflexivity|].
    rewrite script_emit. cbn [trace out]. unfold joined.
    now rewrite publications_broadcast.
  - intros u tr. subst tr. destruct u as [i n]. split; reflexivity.
Qed.

End Routes.

(** *** The model on sample runs *)

Lemma marks_injective (i j : nat) : Samples.marks i = Samples.marks j -> i = j.
Proof.
  revert j. induction i as [|i IH]; intros [|j]; simpl; intros H;
    try discriminate; [reflexivity|].
  injection H as H. now rewrite (IH j H).
Qed.

Lemma sample_v4_not_empty (k : nat) : Samples.sample_v4 k <> EmptyString.
Proof. discriminate. Qed.

Lemma sample_v4_injective (i j : nat) :
  Samples.sample_v4 i = Samples.sample_v4 j -> i = j.
Proof.
  unfold Samples.sample_v4. simpl. intros H. injection H as H.
  now apply marks_injective.
Qed.

Lemma start_reachable (v4 : nat -> string) (qs : list Request) :
  reachable v4 (fst (serve v4 qs start)).
Proof. now exists qs. Qed.

(** C5 fails as stated: the empty name is accepted and published. *)
Lemma empty_name_is_registered :
  response (register Samples.sample_v4 Samples.empty_name start)
  = Replied 200 (Json (JObj [("id", JStr "uuid-"); ("name", JStr EmptyString)]))
  /\ publications (trace (register Samples.sample_v4 Samples.empty_name start))
     = [UserSignedIn {| id := "uuid-"; name := EmptyString |}].
Proof. split; reflexivity. Qed.

Lemma rejected_input_publishes_nothing_witness :
  is_string (get "name" []) = false
  /\ is_string (get "message" Samples.number_fields) = false
  /\ register Samples.sample_v4 (JObj []) start
     = {| response :=
            Replied 400
              (FailedResult
                 [ {| path := ["name"]; expected := "string";
                      received := "undefined" |} ]);
          server := start; trace := [] |}
  /\ exists e,
       postMessage Samples.sample_v4 (JObj Samples.number_fields) start
       = {| response := Replied 400 (Error e); server := start; trace := [] |}.
Proof.
  split; [reflexivity|]. split; [reflexivity|].
  destruct (rejected_input_publishes_nothing Samples.sample_v4
              [] Samples.number_fields start eq_refl eq_refl)
    as (Hreg & Hpost & _).
  split; [exact Hreg | exact Hpost].
Defined.

(** C6 fails as stated: on the wire the sign-in event of Alice carries the
    discriminant [UserSignedIn], which is none of the three names of the
    claim. *)
Lemma wire_discriminant_is_UserSignedIn :
  written 0
    (out (invoke sse_subscriber 1 0 (UserSignedIn Samples.alice) create))
  = [ "event: message" ++ char LF;
      "data: {" ++ quote "discriminant" ++ ":" ++ quote "UserSignedIn"
        ++ "," ++ quote "data" ++ ":{" ++ quote "user" ++ ":{"
        ++ quote "id" ++ ":" ++ quote "u1" ++ ","
        ++ quote "name" ++ ":" ++ quote "Alice" ++ "}}}"
        ++ char LF ++ char LF ]
  /\ get "discriminant"
       [("discriminant", JStr (discriminant (UserSignedIn Samples.alice)));
        ("data", dataJSON (UserSignedIn Samples.alice))]
     = Some (JStr "UserSignedIn")
  /\ ~ In "UserSignedIn" ["IdentityJoined"; "MessagePosted"; "IdentityLeft"].
Proof.
  split; [reflexivity|]. split; [reflexivity|].
  simpl. intros [H|[H|[H|[]]]]; discriminate.
Qed.

Lemma boot_attainable (v4 : nat -> string) (qs : list Request) :
  attainable v4 (fst (dispatch_all v4 qs boot)).
Proof. now exists qs. Qed.

Lemma first_close_signal_signs_out_once_witness :
  userSchema (userJSON Samples.alice) = inr Samples.alice
  /\ publications
       (seen (dispatch Samples.sample_v4 (CloseSignal 0)
                (fst (dispatch_all Samples.sample_v4 Samples.both_open boot))))
     = [UserSignedOut Samples.alice]
  /\ wire 1
       (seen (dispatch Samples.sample_v4 (CloseSignal 0)
                (fst (dispatch_all Samples.sample_v4 Samples.both_open boot))))
     = frame (UserSignedOut Samples.alice)
  /\ seen (dispatch Samples.sample_v4 (CloseSignal 0)
             (fst (dispatch_all Samples.sample_v4
                     (Samples.both_open ++ [CloseSignal 0]
                        ++ Samples.chatter) boot)))
     = [].
Proof.
  split; [reflexivity|].
  destruct (first_close_signal_signs_out_once Samples.sample_v4 boot
              (userJSON Samples.alice) Samples.alice
              [GetSse (userJSON Samples.bob)] Samples.chatter
              (boot_attainable Samples.sample_v4 []) eq_refl eq_refl)
    as (_ & _ & Hpub & _ & Hothers & _ & Hagain).
  split; [exact Hpub|]. split.
  - apply (Hothers 1); [now right; left | discriminate].
  - exact (f_equal seen Hagain).
Defined.

Lemma register_mints_identity_and_broadcasts_witness :
  get "name" [("name", JStr "Alice")] = Some (JStr "Alice")
  /\ response
       (register Samples.sample_v4 (JObj [("name", JStr "Alice")])
          (fst (serve Samples.sample_v4 Samples.both_open start)))
     = Replied 200 (Json (JObj [("id", JStr "uuid-"); ("name", JStr "Alice")]))
  /\ publications
       (trace
          (register Samples.sample_v4 (JObj [("name", JStr "Alice")])
             (fst (serve Samples.sample_v4 Samples.both_open start))))
     = [UserSignedIn {| id := "uuid-"; name := "Alice" |}].
Proof.
  split; [reflexivity|].
  destruct (register_mints_identity_and_broadcasts Samples.sample_v4
              (fst (serve Samples.sample_v4 Samples.both_open start))
              [("name", JStr "Alice")] "Alice"
              sample_v4_not_empty sample_v4_injective
              (start_reachable Samples.sample_v4 Samples.both_open) eq_refl)
    as (Hresp & _ & _ & _ & Hpub & _).
  split; [exact Hresp | exact Hpub].
Defined.

Lemma message_is_acknowledged_and_broadcast_witness :
  get "message" Samples.hi_fields = Some (JStr "hi")
  /\ listener 0
       (closeListeners (fst (serve Samples.sample_v4 Samples.both_open start)))
     = Some Samples.alice
  /\ response
       (postMessage Samples.sample_v4 (JObj Samples.hi_fields)
          (fst (serve Samples.sample_v4 Samples.both_open start)))
     = Replied 204 Empty
  /\ wire 0
       (trace
          (postMessage Samples.sample_v4 (JObj Samples.hi_fields)
             (fst (serve Samples.sample_v4 Samples.both_open start))))
     = frame (UserMessage "uuid-" Samples.alice "hi").
Proof.
  split; [reflexivity|]. split; [reflexivity|].
  destruct (message_is_acknowledged_and_broadcast Samples.sample_v4
              (fst (serve Samples.sample_v4 Samples.both_open start))
              Samples.hi_fields
              [("id", JStr "u1"); ("name", JStr "Alice")] "hi" "u1" "Alice"
              (start_reachable Samples.sample_v4 Samples.both_open)
              eq_refl eq_refl eq_refl eq_refl)
    as (Hresp & _ & _ & _ & _ & Hsender).
  split; [exact Hresp|].
  apply (Hsender 0); [reflexivity | now left].
Defined.

End ServerFacts.

(** ** More about the observable *)

Module ObservableMore.

Import Observable ObservableFacts.

Section More.

Context {T E : Type}.

Variable behaviour : Subscriber -> T -> list (Stmt T E).

Implicit Types (o : Observable) (s x a b : Subscriber) (d e : T).

Lemma count_occ_filter_ne s x (l : list Subscriber) :
  count_occ Nat.eq_dec (filter (fun y => negb (Nat.eqb y s)) l) x
  = if Nat.eqb x s then 0 else count_occ Nat.eq_dec l x.
Proof.
  induction l as [|y l IH]; simpl; [now destruct (Nat.eqb x s)|].
  destruct (Nat.eqb y s) eqn:Hys; simpl.
  - apply Nat.eqb_eq in Hys. subst y. rewrite IH.
    destruct (Nat.eq_dec s x) as [->|Hne].
    + now rewrite Nat.eqb_refl.
    + reflexivity.
  - apply Nat.eqb_neq in Hys. rewrite IH.
    destruct (Nat.eq_dec y x) as [->|Hne]; [|reflexivity].
    apply Nat.eqb_neq in Hys. now rewrite Hys.
Qed.

Lemma same_subscribers o o' : subscribers o = subscribers o' -> o = o'.
Proof. destruct o, o'; simpl; now intros ->. Qed.

(** X1.  The handle that [subscribe(f)] returns removes every registration
    of [f], those of earlier subscribe calls with the same function too:
    after it the observable is as if the handle had been invoked without
    the last subscription.  Every other callback keeps its registrations,
    and a callback that was not registered before is gone without a
    trace. *)
Theorem handle_removes_every_registration s o :
  unsubscribe s (subscribe s o) = unsubscribe s o
  /\ (forall x,
        count_occ Nat.eq_dec (subscribers (unsubscribe s (subscribe s o))) x
        = if Nat.eqb x s then 0 else count_occ Nat.eq_dec (subscribers o) x)
  /\ (count_occ Nat.eq_dec (subscribers o) s = 0 ->
      unsubscribe s (subscribe s o) = o).
Proof.
  assert (H : unsubscribe s (subscribe s o) = unsubscribe s o).
  { unfold unsubscribe, subscribe; simpl. rewrite filter_app. simpl.
    rewrite Nat.eqb_refl. simpl. now rewrite app_nil_r. }
  split; [exact H|]. split.
  - intros x. rewrite H. unfold unsubscribe; simpl.
    apply count_occ_filter_ne.
  - intros Hs. rewrite H. apply unsubscribe_absent.
    now apply count_occ_not_In in Hs.
Qed.

(** X2.  Handles may be invoked in any order: two handles commute, and so
    the subscriber list after two handle calls does not depend on which
    came first; what is left are the other callbacks in the order they
    had. *)
Theorem handles_commute a b o fuel :
  unsubscribe a (unsubscribe b o) = unsubscribe b (unsubscribe a o)
  /\ bus (exec behaviour fuel [CallHandle a; CallHandle b] o)
     = bus (exec behaviour fuel [CallHandle b; CallHandle a] o)
  /\ subscribers (unsubscribe a (unsubscribe b o))
     = filter (fun y => negb (Nat.eqb y a) && negb (Nat.eqb y b))
         (subscribers o).
Proof.
  assert (H : forall a b,
             subscribers (unsubscribe a (unsubscribe b o))
             = filter (fun y => negb (Nat.eqb y a) && negb (Nat.eqb y b))
                 (subscribers o)).
  { intros a' b'. unfold unsubscribe; simpl. rewrite filter_filter.
    apply filter_ext. intros y. apply andb_comm. }
  assert (Hc : unsubscribe a (unsubscribe b o)
               = unsubscribe b (unsubscribe a o)).
  { apply same_subscribers. rewrite (H a b), (H b a).
    apply filter_ext. intros y. apply andb_comm. }
  split; [exact Hc|]. split; [|apply H].
  unfold exec. cbn [run tell ret bus]. now rewrite Hc.
Qed.

(** X3.  A callback that publishes from inside a publish is served first:
    when the first subscriber answers [e1] by publishing [e2], every
    subscriber is called with [e2] before the subscribers after the first
    are called with [e1].  So these receive the two events in the reverse
    of the order in which they were published. *)
Theorem nested_publish_is_delivered_first a (rest : list Subscriber)
  e1 e2 n o :
  subscribers o = a :: rest ->
  behaviour a e1 = [CallEmit e2] ->
  (forall x, In x (a :: rest) -> calm (behaviour x e2) = true) ->
  (forall x, In x rest -> calm (behaviour x e1) = true) ->
  let r := publish behaviour (S (S n)) e1 o in
  status r = Returned
  /\ publications (out r) = [e1; e2]
  /\ invocations (out r)
     = (a, e1) :: map (fun x => (x, e2)) (a :: rest)
       ++ map (fun x => (x, e1)) rest.
Proof.
  intros Hsub Ha He2 He1 r. subst r. unfold publish, emit.
  rewrite Hsub. cbn [forEach].
  assert (Hin : forall x, In x (subscribers o) ->
                          calm (behaviour x e2) = true)
    by (rewrite Hsub; exact He2).
  destruct (publish_snapshot behaviour n e2 o Hin) as (Hst & Hinv & Hpub).
  rewrite Hsub in Hinv.
  assert (Hcall : status (invoke behaviour (S (S n)) a e1 o) = Returned
                  /\ invocations (out (invoke behaviour (S (S n)) a e1 o))
                     = (a, e1) :: map (fun x => (x, e2)) (a :: rest)
                  /\ publications (out (invoke behaviour (S (S n)) a e1 o))
                     = [e2]).
  { change (invoke behaviour (S (S n)) a e1 o)
      with (tell [Invoked a e1]
              (run (invoke behaviour (S n)) (behaviour a e1) o)).
    rewrite Ha. cbn [run].
    change (emit (invoke behaviour (S n)) e2 o)
      with (publish behaviour (S n) e2 o).
    rewrite bind_returned by exact Hst.
    cbn [tell ret status out bus].
    rewrite app_nil_r. cbn [app invocations publications].
    now rewrite Hinv, Hpub. }
  destruct Hcall as (Hs1 & Hi1 & Hp1).
  rewrite bind_returned by exact Hs1.
  destruct (forEach_snapshot behaviour (S n) rest e1 He1
              (bus (invoke behaviour (S (S n)) a e1 o)))
    as (Hs2 & Hi2 & Hp2).
  cbn [tell status out]. split; [exact Hs2|].
  cbn [app publications invocations].
  rewrite publications_app, invocations_app, Hi1, Hi2, Hp1, Hp2.
  split; reflexivity.
Qed.

End More.

Lemma nested_publish_is_delivered_first_witness :
  subscribers Samples.two = 1 :: [2]
  /\ Samples.echoing 1 7 = [CallEmit 8]
  /\ invocations (out (publish Samples.echoing 2 7 Samples.two))
     = [(1, 7); (1, 8); (2, 8); (2, 7)].
Proof.
  split; [reflexivity|]. split; [reflexivity|].
  refine (proj2 (proj2
    (nested_publish_is_delivered_first Samples.echoing 1 [2] 7 8 0
       Samples.two eq_refl eq_refl _ _))).
  - intros x [<-|[<-|[]]]; reflexivity.
  - intros x [<-|[]]; reflexivity.
Defined.

End ObservableMore.

(** ** More about the schemas *)

Module SchemaFacts.

Import Json Zod Server.

Open Scope string_scope.

Ltac split_value v :=
  let E := fresh "E" in
  destruct v as [[ | [ | ] | | | | ]|] eqn:E; cbn in *; try discriminate.

(** X4.  Each schema accepts exactly the objects whose keys of the shape
    hold values of the right type, and its data are the values submitted:
    [signInSchema] wants a string [name]; [userSchema] wants strings [id]
    and [name]; [messageSchema] wants a string [message] and a [user]
    object with strings [id] and [name].  Nothing is asked of the strings
    themselves, and other keys of the input play no part. *)
Theorem schemas_accept_exactly_typed_objects :
  (forall input n,
     signInSchema input = inr n
     <-> exists fields,
           input = JObj fields /\ get "name" fields = Some (JStr n))
  /\ (forall input u,
        userSchema input = inr u
        <-> exists fields,
              input = JObj fields
              /\ get "id" fields = Some (JStr (id u))
              /\ get "name" fields = Some (JStr (name u)))
  /\ (forall input dto,
        messageSchema input = inr dto
        <-> exists fields ufields,
              input = JObj fields
              /\ get "message" fields = Some (JStr (message dto))
              /\ get "user" fields = Some (JObj ufields)
              /\ get "id" ufields = Some (JStr (id (user dto)))
              /\ get "name" ufields = Some (JStr (name (user dto)))).
Proof.
  split; [|split].
  - intros input n. split.
    + destruct input as [ | | | | |fields]; try discriminate.
      unfold signInSchema, z_string. intros H. exists fields.
      split; [reflexivity|].
      split_value (get "name" fields). congruence.
    + intros (fields & -> & Hn). simpl. now rewrite Hn.
  - intros input [i n]. split.
    + destruct input as [ | | | | |fields]; try discriminate.
      unfold userSchema, userSchemaAt, z_string. cbn [id name].
      intros H. exists fields. split; [reflexivity|].
      split_value (get "id" fields); split_value (get "name" fields).
      split; congruence.
    + cbn [id name]. intros (fields & -> & Hi & Hn).
      unfold userSchema, userSchemaAt. now rewrite Hi, Hn.
  - intros input [m [i n]]. split.
    + destruct input as [ | | | | |fields]; try discriminate.
      unfold messageSchema, userSchemaAt, z_string. cbn [message user id name].
      intros H.
      split_value (get "message" fields); split_value (get "user" fields).
      match goal with
      | H : context [get "id" ?uf] |- _ =>
          exists fields, uf; split; [reflexivity|];
          split_value (get "id" uf); split_value (get "name" uf)
      end.
      repeat split; congruence.
    + cbn [message user id name].
      intros (fields & ufields & -> & Hm & Hu & Hi & Hn).
      unfold messageSchema, userSchemaAt. rewrite Hm, Hu. cbn [z_string app].
      now rewrite Hi, Hn.
Qed.

Lemma z_string_cases (p : list string) (v : option JSON) :
  (exists s, v = Some (JStr s) /\ z_string p v = inr s)
  \/ (is_string v = false
      /\ z_string p v
         = inl [ {| path := p; expected := "string";
                    received := parsedType v |} ]).
Proof.
  destruct v as [[ | | | s | | ]|]; simpl; try (right; now split).
  left. now exists s.
Qed.

Lemma userSchemaAt_cases (p : list string) (v : option JSON) :
  (exists u, userSchemaAt p v = inr u)
  \/ (exists e,
        userSchemaAt p v = inl e
        /\ 1 <= List.length e <= 2
        /\ forall i, In i e ->
             In (path i, expected i)
               [ (p, "object"); ((p ++ ["id"])%list, "string");
                 ((p ++ ["name"])%list, "string") ]).
Proof.
  assert (Hone : forall i : ZodIssue,
            In (path i, expected i) [(path i, expected i)])
    by (intros i; now left).
  destruct v as [[ | | | | |fields]|];
    try (right; eexists; split; [reflexivity|]; split; [simpl; lia|];
         intros i [<-|[]]; simpl; tauto).
  unfold userSchemaAt.
  destruct (z_string_cases (p ++ ["id"]) (get "id" fields))
    as [(i & _ & ->)|(_ & ->)];
    destruct (z_string_cases (p ++ ["name"]) (get "name" fields))
      as [(n & _ & ->)|(_ & ->)].
  - left. now eexists.
  - right. eexists. split; [reflexivity|]. split; [simpl; lia|].
    intros x [<-|[]]; simpl; tauto.
  - right. eexists. split; [reflexivity|]. split; [simpl; lia|].
    intros x [<-|[]]; simpl; tauto.
  - right. eexists. split; [reflexivity|]. split; [simpl; lia|].
    intros x [<-|[<-|[]]]; simpl; tauto.
Qed.

(** X5.  A message body that fails [messageSchema] gets at least one and
    at most three issues, each naming the path of a key of the shape and
    the type wanted there.  The failing keys are reported together, not
    only the first: when [message] holds no string and [user] fails too,
    the issue of [message] comes first and there is one more at least. *)
Theorem messageSchema_reports_each_bad_field (input : JSON) (e : ZodError) :
  messageSchema input = inl e ->
  1 <= List.length e <= 3
  /\ (forall i, In i e ->
        In (path i, expected i)
          [ ([], "object"); (["message"], "string"); (["user"], "object");
            (["user"; "id"], "string"); (["user"; "name"], "string") ])
  /\ (forall fields,
        input = JObj fields ->
        is_string (get "message" fields) = false ->
        success (userSchemaAt ["user"] (get "user" fields)) = false ->
        2 <= List.length e /\ map path (firstn 1 e) = [["message"]]).
Proof.
  destruct input as [ | | | | |fields];
    try (intros H; inversion H; subst; simpl; split; [lia|]; split;
         [intros i [<-|[]]; simpl; tauto | intros ? ?; discriminate]).
  unfold messageSchema. intros H.
  assert (Huser : forall eu i,
            (forall x, In x eu ->
               In (path x, expected x)
                 [ (["user"], "object"); ((["user"] ++ ["id"])%list, "string");
                   ((["user"] ++ ["name"])%list, "string") ]) ->
            In i eu ->
            In (path i, expected i)
              [ ([], "object"); (["message"], "string"); (["user"], "object");
                (["user"; "id"], "string"); (["user"; "name"], "string") ]).
  { intros eu i Hall Hi. specialize (Hall i Hi). simpl in *. tauto. }
  destruct (z_string_cases ["message"] (get "message" fields))
    as [(m & Hm & Em)|(Hm & Em)];
    destruct (userSchemaAt_cases ["user"] (get "user" fields))
      as [(u & Eu)|(eu & Eu & Hlen & Hall)];
    rewrite Em, Eu in H; try discriminate; inversion H; subst e; clear H;
    cbn [issues app List.length].
  - split; [lia|]. split; [intros i Hi; now apply (Huser eu)|].
    intros fs Hfs. inversion Hfs; subst fs. rewrite Hm. discriminate.
  - split; [lia|]. split; [intros i [<-|[]]; simpl; tauto|].
    intros fs Hfs. inversion Hfs; subst fs. rewrite Eu. discriminate.
  - split; [lia|]. split.
    + intros i [<-|Hi]; [simpl; tauto | now apply (Huser eu)].
    + intros fs Hfs _ _. split; [lia | reflexivity].
Qed.

Lemma messageSchema_reports_each_bad_field_witness :
  messageSchema (JObj [("message", JNum 3)])
  = inl [ {| path := ["message"]; expected := "string";
             received := "number" |};
          {| path := ["user"]; expected := "object";
             received := "undefined" |} ]
  /\ 1 <= 2 <= 3.
Proof.
  split; [reflexivity|].
  exact (proj1
    (messageSchema_reports_each_bad_field (JObj [("message", JNum 3)]) _
       eq_refl)).
Defined.

End SchemaFacts.

(** ** More about the server *)

Module ServerMore.

Import Json Zod Server ObservableFacts ServerFacts.

Open Scope string_scope.

(** *** Lists of stream numbers *)

Lemma sorted_snoc (l : list nat) (c : nat) :
  StronglySorted lt l -> (forall x, In x l -> x < c) ->
  StronglySorted lt (l ++ [c]).
Proof.
  induction 1 as [|y l Hl IH Hy]; intros Hc; simpl.
  - constructor; constructor.
  - constructor.
    + apply IH. intros x Hx. apply Hc. now right.
    + apply Forall_app. split; [exact Hy|].
      constructor; [|constructor]. apply Hc. now left.
Qed.

Lemma sorted_filter (f : nat -> bool) (l : list nat) :
  StronglySorted lt l -> StronglySorted lt (filter f l).
Proof.
  induction 1 as [|y l Hl IH Hy]; simpl; [constructor|].
  destruct (f y); [|exact IH]. constructor; [exact IH|].
  apply Forall_forall. intros x Hx. apply filter_In in Hx.
  rewrite Forall_forall in Hy. now apply Hy.
Qed.

Lemma listener_present (c : Conn) (ls : list (Conn * User)) :
  In c (map fst ls) -> exists u, listener c ls = Some u.
Proof.
  induction ls as [|[c' u] ls IH]; simpl; [tauto|]. intros H.
  destruct (Nat.eqb c' c) eqn:Hc; [now exists u|].
  apply Nat.eqb_neq in Hc. destruct H as [H|H]; [congruence | now apply IH].
Qed.

Lemma written_app (c : Conn) (tr tr' : list Event) :
  written c (tr ++ tr') = (written c tr ++ written c tr')%list.
Proof.
  induction tr as [|[d|s d|s|[c' chunk]] tr IH]; simpl; auto.
  destruct (Nat.eqb c' c); simpl; now rewrite IH.
Qed.

Lemma append_empty (s : string) : s ++ EmptyString = s.
Proof. induction s as [|x s IH]; simpl; [reflexivity | now rewrite IH]. Qed.

Lemma concat_cons (x : string) (xs : list string) :
  String.concat EmptyString (x :: xs) = x ++ String.concat EmptyString xs.
Proof.
  destruct xs as [|y ys]; simpl; [now rewrite append_empty | reflexivity].
Qed.

Lemma concat_frames (evs : list ChatEvent) :
  String.concat EmptyString
    (flat_map (fun event =>
                 [ "event: message" ++ char LF;
                   "data: " ++ stringify (toJSON event) ++ char LF ++ char LF ])
       evs)
  = String.concat EmptyString (map frame evs).
Proof.
  induction evs as [|ev evs IH]; [reflexivity|].
  cbn [flat_map map app]. rewrite !concat_cons, IH.
  unfold frame. now rewrite append_assoc.
Qed.

(** *** Line breaks in a frame *)

Lemma occurrences_app (c : ascii) (a b : string) :
  occurrences c (a ++ b) = occurrences c a + occurrences c b.
Proof.
  induction a as [|x a IH]; simpl; [reflexivity|]. rewrite IH. lia.
Qed.

Lemma escape_no_break (x : ascii) :
  occurrences LF (escape x) = 0 /\ occurrences "013"%char (escape x) = 0.
Proof.
  destruct x as [[|] [|] [|] [|] [|] [|] [|] [|]]; split; reflexivity.
Qed.

Lemma quote_no_break (s : string) :
  occurrences LF (quote s) = 0 /\ occurrences "013"%char (quote s) = 0.
Proof.
  unfold quote. cbn [occurrences]. rewrite !occurrences_app.
  assert (H : occurrences LF (escape_all s) = 0
              /\ occurrences "013"%char (escape_all s) = 0).
  { induction s as [|x s [IH1 IH2]]; [now split|]. cbn [escape_all].
    rewrite !occurrences_app, IH1, IH2.
    destruct (escape_no_break x) as [-> ->]. now split. }
  destruct H as [-> ->]. now split.
Qed.

(** X12.  The JSON text of an event holds neither a line feed nor a
    carriage return, whatever the strings of the event hold: they are
    escaped.  So a frame holds exactly three line feeds, the one that ends
    the [event:] line and the two that end the [data:] line, and a name or
    a message cannot break a frame in two. *)
Theorem frame_has_three_line_breaks (event : ChatEvent) :
  occurrences LF (stringify (toJSON event)) = 0
  /\ occurrences "013"%char (stringify (toJSON event)) = 0
  /\ occurrences LF (frame event) = 3
  /\ occurrences "013"%char (frame event) = 0.
Proof.
  assert (H : occurrences LF (stringify (toJSON event)) = 0
              /\ occurrences "013"%char (stringify (toJSON event)) = 0).
  { destruct event as [[i n]|i [ui un] m|[i n]];
      cbn [toJSON dataJSON userJSON discriminant stringify map fst snd
           String.concat id name];
      rewrite !occurrences_app;
      repeat match goal with
             | |- context [occurrences ?c (quote ?s)] =>
                 first [ rewrite (proj1 (quote_no_break s))
                       | rewrite (proj2 (quote_no_break s)) ]
             end;
      split; reflexivity. }
  destruct H as [H1 H2]. split; [exact H1|]. split; [exact H2|].
  unfold frame. rewrite !occurrences_app, H1, H2. split; reflexivity.
Qed.

Lemma script_subscribe (c : Conn) (o : Observable) :
  script [CallSubscribe c] o
  = {| status := Returned; bus := subscribe c o; out := [] |}.
Proof. reflexivity. Qed.

Section Routes.

Variable v4 : nat -> string.

(** *** What every reachable state satisfies *)

Lemma handle_ordered (q : Request) (st : State) :
  map fst (closeListeners st) = seq 0 (streams st)
  /\ StronglySorted lt (subscribers (events st))
  /\ (forall c, In c (subscribers (events st)) -> c < streams st) ->
  let st' := server (handle v4 q st) in
  map fst (closeListeners st') = seq 0 (streams st')
  /\ StronglySorted lt (subscribers (events st'))
  /\ (forall c, In c (subscribers (events st')) -> c < streams st').
Proof.
  intros (Hls & Hso & Hlt) st'. subst st'.
  destruct q as [query|c|body|body]; cbn [handle].
  - unfold sse. destruct (userSchema query) as [e|u].
    + now repeat split.
    + rewrite script_subscribe.
      cbn [server closeListeners streams events bus subscribe subscribers].
      repeat split.
      * rewrite map_app, Hls, seq_S. reflexivity.
      * now apply sorted_snoc.
      * intros c. rewrite in_app_iff. simpl.
        intros [H|[<-|[]]]; [apply Hlt in H|]; lia.
  - unfold close. destruct (listener c (closeListeners st)) as [u|].
    + rewrite script_close. repeat split; simpl.
      * exact Hls.
      * now apply sorted_filter.
      * intros x Hx. apply filter_In in Hx. now apply Hlt.
    + now repeat split.
  - unfold register. destruct (signInSchema body) as [e|n].
    + now repeat split.
    + rewrite script_emit. now repeat split.
  - unfold postMessage. destruct (messageSchema body) as [e|m].
    + now repeat split.
    + rewrite script_emit. now repeat split.
Qed.

Lemma serve_ordered (qs : list Request) (st : State) :
  map fst (closeListeners st) = seq 0 (streams st)
  /\ StronglySorted lt (subscribers (events st))
  /\ (forall c, In c (subscribers (events st)) -> c < streams st) ->
  let st' := fst (serve v4 qs st) in
  map fst (closeListeners st') = seq 0 (streams st')
  /\ StronglySorted lt (subscribers (events st'))
  /\ (forall c, In c (subscribers (events st')) -> c < streams st').
Proof.
  revert st. induction qs as [|q qs IH]; intros st Hst; [exact Hst|].
  cbv zeta. rewrite (proj1 (serve_cons v4 q qs st)).
  apply IH. now apply handle_ordered.
Qed.

Lemma reachable_ordered (st : State) :
  reachable v4 st ->
  map fst (closeListeners st) = seq 0 (streams st)
  /\ StronglySorted lt (subscribers (events st))
  /\ (forall c, In c (subscribers (events st)) -> c < streams st).
Proof.
  intros [qs <-]. apply (serve_ordered qs start).
  repeat split; simpl; [constructor | tauto].
Qed.

(** X6.  In every state the server can reach, the close listeners are
    those of the streams accepted so far, one each and in the order of
    acceptance; the subscribed callbacks are listed in the order their
    streams were accepted, none twice; and every subscribed callback
    belongs to an accepted stream that has its close listener, so every
    subscription can be ended. *)
Theorem reachable_streams_are_ordered (st : State) :
  reachable v4 st ->
  map fst (closeListeners st) = seq 0 (streams st)
  /\ StronglySorted lt (subscribers (events st))
  /\ NoDup (subscribers (events st))
  /\ (forall c, In c (subscribers (events st)) ->
        c < streams st /\ exists u, listener c (closeListeners st) = Some u).
Proof.
  intros Hreach.
  destruct (reachable_ordered st Hreach) as (Hls & Hso & Hlt).
  split; [exact Hls|]. split; [exact Hso|]. split.
  - now destruct (reachable_well_formed v4 st Hreach) as [Hnd _].
  - intros c Hc. split; [now apply Hlt|].
    apply listener_present. rewrite Hls. apply in_seq.
    specialize (Hlt c Hc). lia.
Qed.

(** *** What a stream receives *)

Lemma concat_app (l l' : list string) :
  String.concat EmptyString (l ++ l')
  = String.concat EmptyString l ++ String.concat EmptyString l'.
Proof.
  induction l as [|x l IH]; [reflexivity|].
  rewrite <- app_comm_cons, !concat_cons, IH. now rewrite append_assoc.
Qed.

Lemma published_app (tr tr' : list Event) :
  publications (tr ++ tr') = (publications tr ++ publications tr')%list.
Proof. apply publications_app. Qed.

Lemma wire_app (c : Conn) (tr tr' : list Event) :
  wire c (tr ++ tr') = wire c tr ++ wire c tr'.
Proof. unfold wire. now rewrite written_app, concat_app. Qed.

Lemma handle_in_order (q : Request) (st : State) (c : Conn) :
  NoDup (subscribers (events st)) ->
  In c (subscribers (events st)) ->
  closes c q = false ->
  wire c (trace (handle v4 q st))
  = String.concat EmptyString
      (map frame (publications (trace (handle v4 q st))))
  /\ In c (subscribers (events (server (handle v4 q st)))).
Proof.
  intros Hnd Hc Hq. destruct q as [query|c'|body|body]; cbn [handle].
  - unfold sse. destruct (userSchema query) as [e|u]; [now split|].
    rewrite script_subscribe. cbn [trace server events bus out].
    split; [reflexivity|]. cbn [subscribe subscribers].
    apply in_app_iff. now left.
  - simpl in Hq. apply Nat.eqb_neq in Hq.
    unfold close. destruct (listener c' (closeListeners st)) as [u|];
      [|now split].
    rewrite script_close. cbn [trace server events bus out].
    assert (Hin : In c (subscribers (unsubscribe c' (events st))))
      by (apply unsubscribe_spec; split; [exact Hc | congruence]).
    split; [|exact Hin].
    cbn [publications]. rewrite publications_broadcast.
    change (wire c (Cancelled c' :: ?t)) with (wire c t).
    rewrite wire_broadcast; [reflexivity | | exact Hin].
    now apply NoDup_filter.
  - unfold register. destruct (signInSchema body) as [e|n]; [now split|].
    rewrite script_emit. cbn [trace server events bus out].
    split; [|exact Hc].
    now rewrite publications_broadcast, wire_broadcast.
  - unfold postMessage. destruct (messageSchema body) as [e|m]; [now split|].
    rewrite script_emit. cbn [trace server events bus out].
    split; [|exact Hc].
    now rewrite publications_broadcast, wire_broadcast.
Qed.

Lemma serve_in_order (qs : list Request) (st : State) (c : Conn) :
  well_formed st ->
  In c (subscribers (events st)) ->
  existsb (closes c) qs = false ->
  wire c (snd (serve v4 qs st))
  = String.concat EmptyString (map frame (publications (snd (serve v4 qs st)))).
Proof.
  revert st. induction qs as [|q qs IH]; intros st Hwf Hc Hqs;
    [reflexivity|].
  simpl in Hqs. apply orb_false_iff in Hqs as [Hq Hqs].
  destruct (handle_in_order q st c (proj1 Hwf) Hc Hq) as [Hw Hin].
  rewrite (proj2 (serve_cons v4 q qs st)).
  rewrite wire_app, published_app, map_app, concat_app, Hw.
  f_equal. apply IH; [now apply handle_well_formed | exact Hin | exact Hqs].
Qed.

(** X7.  A stream receives nothing when it is accepted (no event of the
    past is replayed), and from then until its close signal it receives
    the frame of every event published, each once and in the order of
    publication, and nothing else. *)
Theorem stream_receives_every_event_in_order (st : State) (query : JSON)
  (u : User) (qs : list Request) :
  reachable v4 st ->
  userSchema query = inr u ->
  existsb (closes (streams st)) qs = false ->
  let c := streams st in
  let tr := snd (serve v4 qs (server (sse query st))) in
  wire c (trace (sse query st)) = EmptyString
  /\ wire c tr = String.concat EmptyString (map frame (publications tr)).
Proof.
  intros Hreach Hq Hqs c tr. subst c tr.
  assert (Hwf : well_formed (server (sse query st))).
  { apply (handle_well_formed v4 (GetSse query)).
    exact (reachable_well_formed v4 st Hreach). }
  split.
  - unfold sse. now rewrite Hq.
  - apply serve_in_order; [exact Hwf| |exact Hqs].
    unfold sse. rewrite Hq, script_subscribe.
    cbn [server events bus subscribe subscribers].
    apply in_app_iff. right. now left.
Qed.

Lemma handle_silent (q : Request) (st : State) (c : Conn) :
  (forall x, In x (subscribers (events st)) -> x < streams st) ->
  c < streams st ->
  ~ In c (subscribers (events st)) ->
  written c (trace (handle v4 q st)) = []
  /\ c < streams (server (handle v4 q st))
  /\ ~ In c (subscribers (events (server (handle v4 q st)))).
Proof.
  intros Hlt Hc Hout. destruct q as [query|c'|body|body]; cbn [handle].
  - unfold sse. destruct (userSchema query) as [e|u]; [now repeat split|].
    rewrite script_subscribe.
    cbn [trace server events bus out streams subscribe subscribers].
    split; [reflexivity|]. split; [lia|].
    rewrite in_app_iff. simpl. intros [H|[H|[]]]; [tauto | lia].
  - unfold close. destruct (listener c' (closeListeners st)) as [u|];
      [|now repeat split].
    rewrite script_close. cbn [trace server events bus out streams].
    assert (Hgone : ~ In c (subscribers (unsubscribe c' (events st))))
      by (rewrite unsubscribe_spec; tauto).
    split; [|split; [exact Hc | exact Hgone]].
    unfold broadcast. cbn [written]. now apply written_absent.
  - unfold register. destruct (signInSchema body) as [e|n];
      [now repeat split|].
    rewrite script_emit. cbn [trace server events bus out streams].
    split; [|split; [exact Hc | exact Hout]].
    unfold broadcast. cbn [written]. now apply written_absent.
  - unfold postMessage. destruct (messageSchema body) as [e|m];
      [now repeat split|].
    rewrite script_emit. cbn [trace server events bus out streams].
    split; [|split; [exact Hc | exact Hout]].
    unfold broadcast. cbn [written]. now apply written_absent.
Qed.

Lemma serve_silent (qs : list Request) (st : State) (c : Conn) :
  well_formed st ->
  c < streams st ->
  ~ In c (subscribers (events st)) ->
  written c (snd (serve v4 qs st)) = [].
Proof.
  revert st. induction qs as [|q qs IH]; intros st Hwf Hc Hout;
    [reflexivity|].
  destruct (handle_silent q st c (proj1 (proj2 Hwf)) Hc Hout)
    as (Hw & Hc' & Hout').
  rewrite (proj2 (serve_cons v4 q qs st)), written_app, Hw.
  apply IH; [now apply handle_well_formed | exact Hc' | exact Hout'].
Qed.

(** X8.  Once the close signal of an accepted stream was handled, nothing
    is ever written to that stream again, whatever requests follow: its
    callback is gone from the observable and no later stream gets the
    same callback. *)
Theorem closed_stream_receives_nothing (st : State) (c : Conn)
  (qs : list Request) :
  reachable v4 st ->
  c < streams st ->
  ~ In c (subscribers (events (server (close c st))))
  /\ written c (trace (close c st)) = []
  /\ written c (snd (serve v4 qs (server (close c st)))) = []
  /\ wire c (snd (serve v4 qs (server (close c st)))) = EmptyString.
Proof.
  intros Hreach Hc.
  destruct (reachable_ordered st Hreach) as (Hls & _ & _).
  assert (Hwf : well_formed st) by exact (reachable_well_formed v4 st Hreach).
  destruct (listener_present c (closeListeners st)) as [u Hu].
  { rewrite Hls. apply in_seq. lia. }
  assert (Hgone : ~ In c (subscribers (unsubscribe c (events st))))
    by (rewrite unsubscribe_spec; tauto).
  assert (Hst : events (server (close c st)) = unsubscribe c (events st)
                /\ streams (server (close c st)) = streams st
                /\ trace (close c st)
                   = Cancelled c
                     :: broadcast (UserSignedOut u)
                          (subscribers (unsubscribe c (events st)))).
  { unfold close. rewrite Hu, script_close. now repeat split. }
  destruct Hst as (Hev & Hstr & Htr).
  assert (Hsilent :
            written c (snd (serve v4 qs (server (close c st)))) = []).
  { apply serve_silent.
    - apply (handle_well_formed v4 (CloseSignal c) st Hwf).
    - now rewrite Hstr.
    - now rewrite Hev. }
  rewrite Hev, Htr. split; [exact Hgone|]. split; [|split].
  - unfold broadcast. cbn [written]. now apply written_absent.
  - exact Hsilent.
  - unfold wire. now rewrite Hsilent.
Qed.

(** *** The ids that were minted *)

Lemma handle_minted (q : Request) (st : State) :
  flat_map minted (publications (trace (handle v4 q st)))
  = map v4 (seq (uuids st) (uuids (server (handle v4 q st)) - uuids st)).
Proof.
  destruct q as [query|c|body|body]; cbn [handle].
  - unfold sse. destruct (userSchema query) as [e|u];
      cbn [trace server uuids]; now rewrite Nat.sub_diag.
  - unfold close. destruct (listener c (closeListeners st)) as [u|];
      [rewrite script_close|]; cbn [trace server uuids out];
      rewrite Nat.sub_diag; [|reflexivity].
    cbn [publications]. now rewrite publications_broadcast.
  - unfold register. destruct (signInSchema body) as [e|n];
      [cbn [trace server uuids]; now rewrite Nat.sub_diag|].
    rewrite script_emit. cbn [trace server uuids out].
    rewrite publications_broadcast.
    replace (S (uuids st) - uuids st) with 1 by lia. reflexivity.
  - unfold postMessage. destruct (messageSchema body) as [e|m];
      [cbn [trace server uuids]; now rewrite Nat.sub_diag|].
    rewrite script_emit. cbn [trace server uuids out].
    rewrite publications_broadcast.
    replace (S (uuids st) - uuids st) with 1 by lia. reflexivity.
Qed.

Lemma serve_minted (qs : list Request) (st : State) :
  flat_map minted (publications (snd (serve v4 qs st)))
  = map v4 (seq (uuids st) (uuids (fst (serve v4 qs st)) - uuids st)).
Proof.
  revert st. induction qs as [|q qs IH]; intros st.
  - simpl. now rewrite Nat.sub_diag.
  - destruct (serve_cons v4 q qs st) as [Hfst Hsnd].
    rewrite Hsnd, Hfst, published_app, flat_map_app, handle_minted, IH.
    rewrite <- map_app. f_equal.
    pose proof (uuids_grow v4 q st) as H1.
    pose proof (uuids_grow_serve v4 qs (server (handle v4 q st))) as H2.
    replace (uuids (fst (serve v4 qs (server (handle v4 q st)))) - uuids st)
      with ((uuids (server (handle v4 q st)) - uuids st)
            + (uuids (fst (serve v4 qs (server (handle v4 q st))))
               - uuids (server (handle v4 q st)))) by lia.
    rewrite seq_app. f_equal. f_equal. lia.
Qed.

Lemma NoDup_map_injective (f : nat -> string) (l : list nat) :
  (forall i j, f i = f j -> i = j) -> NoDup l -> NoDup (map f l).
Proof.
  intros Hf. induction 1 as [|x l Hx Hl IH]; simpl; constructor; auto.
  rewrite in_map_iff. intros (y & Hy & Hin). apply Hf in Hy. now subst.
Qed.

(** X9.  Over any run of the server from its start, the ids minted for
    the sign-in and message events published are the results of the calls
    of [v4] in order, one call per accepted register or message request
    and none for a rejected one.  So, as long as [v4] does not repeat
    itself, no two of these events share their id, user ids and message
    ids taken together. *)
Theorem minted_ids_are_distinct (qs : list Request) :
  (forall i j, v4 i = v4 j -> i = j) ->
  let tr := snd (serve v4 qs start) in
  flat_map minted (publications tr)
  = map v4 (seq 0 (uuids (fst (serve v4 qs start))))
  /\ NoDup (flat_map minted (publications tr)).
Proof.
  intros Hinj tr. subst tr.
  assert (H : flat_map minted (publications (snd (serve v4 qs start)))
              = map v4 (seq 0 (uuids (fst (serve v4 qs start))))).
  { rewrite serve_minted. cbn [start uuids]. now rewrite Nat.sub_0_r. }
  split; [exact H|]. rewrite H.
  apply NoDup_map_injective; [exact Hinj | apply seq_NoDup].
Qed.

(** *** Replies *)


(** X11.  A stream request whose identity fails [userSchema] is answered
    400 with the issues, one at least, and leaves the server as it was: no
    callback is subscribed, no close listener is added, no stream number
    is used up and nothing is written or published. *)
Theorem sse_rejects_invalid_identity (query : JSON) (st : State) :
  success (userSchema query) = false ->
  exists e,
    e <> []
    /\ sse query st
       = {| response := Replied 400 (Error e); server := st; trace := [] |}.
Proof.
  intros Hq. unfold sse.
  destruct (SchemaFacts.userSchemaAt_cases [] (Some query))
    as [(u & Hu)|(e & He & Hlen & _)].
  - unfold userSchema in Hq. now rewrite Hu in Hq.
  - unfold userSchema. rewrite He. exists e. split; [|reflexivity].
    intros ->. simpl in Hlen. lia.
Qed.

End Routes.

Lemma reachable_streams_are_ordered_witness :
  subscribers
    (events (fst (serve Samples.sample_v4 Samples.alice_closed start))) = [1]
  /\ map fst
       (closeListeners
          (fst (serve Samples.sample_v4 Samples.alice_closed start)))
     = [0; 1].
Proof.
  split; [reflexivity|].
  exact (proj1 (reachable_streams_are_ordered Samples.sample_v4 _
                  (start_reachable Samples.sample_v4 Samples.alice_closed))).
Defined.

Lemma stream_receives_every_event_in_order_witness :
  userSchema (userJSON Samples.alice) = inr Samples.alice
  /\ existsb (closes 0) Samples.chatter = false
  /\ wire 0
       (snd (serve Samples.sample_v4 Samples.chatter
               (server (sse (userJSON Samples.alice) start))))
     = String.concat EmptyString
         (map frame
            [ UserSignedIn {| id := "uuid-"; name := "Bob" |};
              UserMessage "uuid-x" Samples.alice "hi" ]).
Proof.
  split; [reflexivity|]. split; [reflexivity|].
  exact (proj2 (stream_receives_every_event_in_order Samples.sample_v4
                  start (userJSON Samples.alice) Samples.alice
                  Samples.chatter (start_reachable Samples.sample_v4 [])
                  eq_refl eq_refl)).
Defined.

Lemma closed_stream_receives_nothing_witness :
  0 < streams (fst (serve Samples.sample_v4 Samples.both_open start))
  /\ written 0
       (snd (serve Samples.sample_v4 Samples.chatter
               (server
                  (close 0
                     (fst (serve Samples.sample_v4 Samples.both_open
                             start)))))) = [].
Proof.
  split; [simpl; lia|].
  refine (proj1 (proj2 (proj2
    (closed_stream_receives_nothing Samples.sample_v4
       (fst (serve Samples.sample_v4 Samples.both_open start)) 0
       Samples.chatter
       (start_reachable Samples.sample_v4 Samples.both_open) _)))).
  simpl. lia.
Defined.

Lemma minted_ids_are_distinct_witness :
  NoDup
    (flat_map minted
       (publications (snd (serve Samples.sample_v4 Samples.chatter start)))).
Proof.
  exact (proj2 (minted_ids_are_distinct Samples.sample_v4 Samples.chatter
                  sample_v4_injective)).
Defined.

Lemma sse_rejects_invalid_identity_witness :
  success (userSchema Samples.nameless) = false
  /\ exists e,
       e <> []
       /\ sse Samples.nameless start
          = {| response := Replied 400 (Error e); server := start;
               trace := [] |}.
Proof.
  split; [reflexivity|].
  exact (sse_rejects_invalid_identity Samples.nameless start eq_refl).
Defined.

End ServerMore.

(** ** The web client and the server together *)

Module ClientFacts.

Import Json Server.

Open Scope string_scope.

(** What the listener shows for an event of the server. *)
Lemma onMessage_of_event (now : string) (event : ChatEvent)
  (messages : list (option Client.ChatMessage)) :
  Client.onMessage now (toJSON event) messages
  = Client.Val
      (messages
       ++ [ match event with
            | UserSignedIn u =>
                Some (Client.system now (name u ++ " has joined the chat"))
            | UserMessage i u m =>
                Some {| Client.id := Some (JStr i);
                        Client.name := Some (JStr (name u));
                        Client.message := Some (JStr m) |}
            | UserSignedOut _ => None
            end ])%list.
Proof. destruct event as [[i n]|i [ui un] m|[i n]]; reflexivity. Qed.

(** X13.  For the payload of every event the server sends, the listener
    does not throw and appends one entry to the messages: the system line
    that the user has joined for a sign-in, the message with its id and
    the name of its sender for a message, and [undefined] for a sign-out.
    The listener tests for [UserSignedOff], a discriminant the server
    never sends, so a sign-out never shows as a line that the user has
    left. *)
Theorem listener_shows_server_events (now : string) (event : ChatEvent)
  (messages : list (option Client.ChatMessage)) :
  Client.onMessage now (toJSON event) messages
  = Client.Val
      (messages
       ++ [ match event with
            | UserSignedIn u =>
                Some (Client.system now (name u ++ " has joined the chat"))
            | UserMessage i u m =>
                Some {| Client.id := Some (JStr i);
                        Client.name := Some (JStr (name u));
                        Client.message := Some (JStr m) |}
            | UserSignedOut _ => None
            end ])%list
  /\ discriminant event <> "UserSignedOff".
Proof.
  split; [apply onMessage_of_event|]. destruct event; discriminate.
Qed.

(** *** Payloads the server does not send *)

(** X14.  A payload whose discriminant is none of the three strings the
    listener tests for is not skipped: [undefined] is appended to the
    messages.  A payload [null] makes the listener throw, and so does a
    payload with one of the three discriminants and no [data]. *)
Theorem listener_appends_undefined_for_unknown_payload (now : string)
  (payload : JSON) (d : Client.Value)
  (messages : list (option Client.ChatMessage)) :
  Client.member (Some payload) "discriminant" = Client.Val d ->
  Client.equals d "UserSignedIn" = false ->
  Client.equals d "UserMessage" = false ->
  Client.equals d "UserSignedOff" = false ->
  Client.onMessage now payload messages = Client.Val (messages ++ [None])%list
  /\ Client.onMessage now JNull messages = Client.TypeError
  /\ (forall tag fields,
        In tag ["UserSignedIn"; "UserMessage"; "UserSignedOff"] ->
        get "discriminant" fields = Some (JStr tag) ->
        get "data" fields = None ->
        Client.onMessage now (JObj fields) messages = Client.TypeError).
Proof.
  intros Hd H1 H2 H3. split; [|split].
  - unfold Client.onMessage. cbv zeta. rewrite Hd. cbn [Client.bind].
    now rewrite H1, H2, H3.
  - reflexivity.
  - intros tag fields Htag Hdisc Hdata.
    unfold Client.onMessage. cbv zeta. cbn [Client.member].
    rewrite Hdisc, Hdata. cbn [Client.bind Client.equals].
    destruct Htag as [<-|[<-|[<-|[]]]]; reflexivity.
Qed.

(** *** The rows of the chat page *)

Lemma onMessage_appends (now : string) (payload : JSON)
  (messages later : list (option Client.ChatMessage)) :
  Client.onMessage now payload messages = Client.Val later ->
  exists m, later = (messages ++ [m])%list.
Proof.
  unfold Client.onMessage. cbv zeta.
  repeat match goal with
         | |- context [Client.bind ?a _] =>
             let E := fresh "E" in
             destruct a eqn:E; cbn [Client.bind]; try discriminate
         end.
  intros Hlater. injection Hlater as <-. now eexists.
Qed.

Lemma onMessages_extend (frames : list (string * JSON))
  (messages later : list (option Client.ChatMessage)) :
  Client.onMessages frames messages = Client.Val later ->
  exists more, later = (messages ++ more)%list.
Proof.
  revert messages. induction frames as [|[now payload] frames IH];
    intros messages; cbn [Client.onMessages].
  - intros H. injection H as <-. exists []. now rewrite app_nil_r.
  - destruct (Client.onMessage now payload messages) as [|next] eqn:E;
      cbn [Client.bind]; [discriminate|].
    intros H. apply IH in H as [more ->].
    apply onMessage_appends in E as [m ->].
    exists (m :: more). now rewrite <- app_assoc.
Qed.

Lemma rows_undefined (before after : list (option Client.ChatMessage)) :
  Client.rows (before ++ None :: after)%list = Client.TypeError.
Proof.
  induction before as [|m before IH]; [reflexivity|].
  cbn [app Client.rows]. destruct (Client.row m); cbn [Client.bind];
    [reflexivity|]. now rewrite IH.
Qed.

Lemma onMessages_app (frames frames' : list (string * JSON))
  (messages : list (option Client.ChatMessage)) :
  Client.onMessages (frames ++ frames') messages
  = Client.bind (Client.onMessages frames messages)
      (Client.onMessages frames').
Proof.
  revert messages. induction frames as [|[now payload] frames IH];
    intros messages; [reflexivity|].
  cbn [app Client.onMessages].
  destruct (Client.onMessage now payload messages); cbn [Client.bind];
    [reflexivity | apply IH].
Qed.

Lemma onMessages_of_events (events : list (string * ChatEvent))
  (messages : list (option Client.ChatMessage)) :
  exists later,
    Client.onMessages (Client.arrivals events) messages = Client.Val later.
Proof.
  revert messages. induction events as [|[now event] events IH];
    intros messages; [now eexists|].
  cbn [Client.arrivals map fst snd Client.onMessages].
  rewrite onMessage_of_event. cbn [Client.bind]. apply IH.
Qed.

(** X15.  Once the frame of a sign-out has reached the listener, the rows
    of the chat page cannot be built any more: the messages hold an
    [undefined] entry, reading its [id] throws, and whatever events
    arrive later only add entries behind it.  So when any user leaves,
    the page of every other user fails at its next rendering. *)
Theorem sign_out_breaks_the_rows (before after : list (string * ChatEvent))
  (now : string) (u : User) (messages : list (option Client.ChatMessage)) :
  exists later,
    Client.onMessages
      (Client.arrivals (before ++ (now, UserSignedOut u) :: after)) messages
    = Client.Val later
    /\ Client.rows later = Client.TypeError.
Proof.
  destruct (onMessages_of_events
              (before ++ (now, UserSignedOut u) :: after) messages)
    as [later Hlater].
  exists later. split; [exact Hlater|].
  unfold Client.arrivals in Hlater.
  rewrite map_app, onMessages_app in Hlater.
  destruct (onMessages_of_events before messages) as [mid Hmid].
  unfold Client.arrivals in Hmid. rewrite Hmid in Hlater.
  cbn [Client.bind map fst snd Client.onMessages] in Hlater.
  rewrite onMessage_of_event in Hlater. cbn [Client.bind] in Hlater.
  apply onMessages_extend in Hlater as [more ->].
  rewrite <- app_assoc. apply rows_undefined.
Qed.

Lemma rows_app (a b : list (option Client.ChatMessage))
  (ra rb : list (Client.Value * Client.Value * Client.Value)) :
  Client.rows a = Client.Val ra ->
  Client.rows b = Client.Val rb ->
  Client.rows (a ++ b)%list = Client.Val (ra ++ rb)%list.
Proof.
  revert ra. induction a as [|m a IH]; intros ra Ha Hb.
  - injection Ha as <-. exact Hb.
  - cbn [app Client.rows] in *. destruct (Client.row m) as [|r];
      cbn [Client.bind] in *; [discriminate|].
    destruct (Client.rows a) as [|ra'] eqn:E; cbn [Client.bind] in *;
      [discriminate|].
    injection Ha as <-. now rewrite (IH ra' eq_refl Hb).
Qed.

(** X16.  As long as only sign-in and message events arrive, the rows of
    the chat page can be built, and they are the rows there were followed
    by one row per event, in the order the events arrived: for a sign-in
    the time of arrival, [System] and the line that the user has joined,
    for a message its id, the name of its sender and its text. *)
Theorem rows_follow_the_events (events : list (string * ChatEvent))
  (messages : list (option Client.ChatMessage))
  (shown : list (Client.Value * Client.Value * Client.Value)) :
  forallb (fun a => negb (is_leave (snd a))) events = true ->
  Client.rows messages = Client.Val shown ->
  exists later,
    Client.onMessages (Client.arrivals events) messages = Client.Val later
    /\ Client.rows later
       = Client.Val
           (shown
            ++ map (fun a =>
                      match snd a with
                      | UserSignedIn u =>
                          (Some (JStr (fst a)), Some (JStr "System"),
                           Some (JStr (name u ++ " has joined the chat")))
                      | UserMessage i u m =>
                          (Some (JStr i), Some (JStr (name u)),
                           Some (JStr m))
                      | UserSignedOut _ => (None, None, None)
                      end) events)%list.
Proof.
  revert messages shown. induction events as [|[now event] events IH];
    intros messages shown Hev Hrows.
  - exists messages. cbn [map]. rewrite app_nil_r. now split.
  - cbn [forallb snd] in Hev. apply andb_true_iff in Hev as [Hone Hev].
    cbn [Client.arrivals map fst snd Client.onMessages].
    rewrite onMessage_of_event. cbn [Client.bind].
    assert (Hnext :
              Client.rows
                (messages
                 ++ [ match event with
                      | UserSignedIn u =>
                          Some (Client.system now
                                  (name u ++ " has joined the chat"))
                      | UserMessage i u m =>
                          Some {| Client.id := Some (JStr i);
                                  Client.name := Some (JStr (name u));
                                  Client.message := Some (JStr m) |}
                      | UserSignedOut _ => None
                      end ])%list
              = Client.Val
                  (shown
                   ++ [ match event with
                        | UserSignedIn u =>
                            (Some (JStr now), Some (JStr "System"),
                             Some (JStr (name u ++ " has joined the chat")))
                        | UserMessage i u m =>
                            (Some (JStr i), Some (JStr (name u)),
                             Some (JStr m))
                        | UserSignedOut _ => (None, None, None)
                        end ])%list).
    { destruct event as [u|i u m|u]; [| |discriminate];
        apply (rows_app _ _ _ _ Hrows); reflexivity. }
    destruct (IH _ _ Hev Hnext) as (later & Hl & Hrs).
    exists later. split; [exact Hl|].
    rewrite Hrs, <- app_assoc. reflexivity.
Qed.

(** *** The query of the stream request *)

Lemma concat_snoc_split (l : list string) (a b : string) :
  String.concat "&" (l ++ [a ++ "&" ++ b]) = String.concat "&" (l ++ [a; b]).
Proof.
  induction l as [|x l IH]; [reflexivity|].
  destruct l as [|y l]; [reflexivity|].
  cbn [app String.concat] in *. now rewrite IH.
Qed.

(** X17.  [joinParams] writes keys and values as they are, nothing is
    encoded: a value that holds [&key=value] gives the very query string
    of an object with that further entry.  For a user it gives [?id=]
    and the id, [&name=] and the name; for an object without keys it
    gives the empty string, and otherwise a string that starts with the
    question mark. *)
Theorem joinParams_does_not_encode (params : list (string * string))
  (k v k' v' : string) :
  Client.joinParams (params ++ [(k, v ++ "&" ++ k' ++ "=" ++ v')])
  = Client.joinParams (params ++ [(k, v); (k', v')])
  /\ (forall i n,
        Client.joinParams [("id", i); ("name", n)]
        = "?id=" ++ i ++ "&name=" ++ n)
  /\ Client.joinParams [] = EmptyString
  /\ (forall p ps, exists rest,
        Client.joinParams (p :: ps) = String "?" rest).
Proof.
  split; [|split; [|split]].
  - unfold Client.joinParams.
    destruct params as [|p params]; cbn [app].
    + cbn [map fst snd String.concat].
      now rewrite !ServerFacts.append_assoc.
    + f_equal. rewrite !app_comm_cons, !map_app.
      cbn [map fst snd].
      replace (k ++ "=" ++ v ++ "&" ++ k' ++ "=" ++ v')
        with ((k ++ "=" ++ v) ++ "&" ++ (k' ++ "=" ++ v'))
        by now rewrite !ServerFacts.append_assoc.
      apply concat_snoc_split.
  - intros i n. reflexivity.
  - reflexivity.
  - intros p ps. unfold Client.joinParams. now eexists.
Qed.

Lemma listener_appends_undefined_for_unknown_payload_witness :
  Client.member (Some (toJSON (UserSignedOut Samples.alice))) "discriminant"
  = Client.Val (Some (JStr "UserSignedOut"))
  /\ Client.onMessage "1700000000000" (toJSON (UserSignedOut Samples.alice)) []
     = Client.Val [None].
Proof.
  split; [reflexivity|].
  exact (proj1
    (listener_appends_undefined_for_unknown_payload "1700000000000"
       (toJSON (UserSignedOut Samples.alice)) (Some (JStr "UserSignedOut")) []
       eq_refl eq_refl eq_refl eq_refl)).
Defined.

Lemma rows_follow_the_events_witness :
  forallb (fun a => negb (is_leave (snd a))) Samples.two_arrivals = true
  /\ exists later,
       Client.onMessages (Client.arrivals Samples.two_arrivals) []
       = Client.Val later
       /\ Client.rows later
          = Client.Val
              [ (Some (JStr "1700000000000"), Some (JStr "System"),
                 Some (JStr "Bob has joined the chat"));
                (Some (JStr "m1"), Some (JStr "Alice"), Some (JStr "hi")) ].
Proof.
  split; [reflexivity|].
  exact (rows_follow_the_events Samples.two_arrivals [] [] eq_refl eq_refl).
Defined.

End ClientFacts.

(** ** The store of the web client *)

Module StoreFacts.

Import Store.

(** *** The set of listeners *)

Lemma live_app (entries entries' : list (option Listener)) :
  live (entries ++ entries') = live entries ++ live entries'.
Proof.
  induction entries as [|[l|] entries IH]; simpl; now rewrite ?IH.
Qed.

Lemma existsb_holds (l : Listener) (entries : list (option Listener)) :
  existsb (holds l) entries = true <-> In l (live entries).
Proof.
  induction entries as [|[x|] entries IH]; simpl.
  - split; [discriminate | tauto].
  - rewrite orb_true_iff, IH, Nat.eqb_eq. tauto.
  - exact IH.
Qed.

Lemma live_delete (l : Listener) (entries : list (option Listener)) :
  live (map (fun e => if holds l e then None else e) entries)
  = filter (fun x => negb (Nat.eqb x l)) (live entries).
Proof.
  induction entries as [|[x|] entries IH]; simpl; auto.
  destruct (Nat.eqb x l); simpl; now rewrite IH.
Qed.

(** X19.  The listeners are a set: subscribing a function that is
    subscribed already changes nothing, so it is held once and a [set]
    calls it once; a new function goes behind the others; and the handle
    leaves the other listeners in their order and removes the function
    for good, however often it was subscribed. *)
Theorem listeners_are_a_set {V : Type} (l : Listener) (st : Store V) :
  NoDup (live (listeners st)) ->
  add l (add l st) = add l st
  /\ NoDup (live (listeners (add l st)))
  /\ count_occ Nat.eq_dec (live (listeners (add l st))) l = 1
  /\ (~ In l (live (listeners st)) ->
      live (listeners (add l st)) = live (listeners st) ++ [l])
  /\ (In l (live (listeners st)) -> add l st = st)
  /\ live (listeners (delete l (add l (add l st))))
     = filter (fun x => negb (Nat.eqb x l)) (live (listeners st))
  /\ ~ In l (live (listeners (delete l (add l (add l st))))).
Proof.
  intros Hnd.
  assert (Hin : In l (live (listeners st)) -> add l st = st).
  { intros H. unfold add. apply existsb_holds in H. now rewrite H. }
  assert (Hout : ~ In l (live (listeners st)) ->
                 live (listeners (add l st)) = live (listeners st) ++ [l]).
  { intros H. unfold add.
    destruct (existsb (holds l) (listeners st)) eqn:Hex.
    - apply existsb_holds in Hex. tauto.
    - cbn [listeners]. now rewrite live_app. }
  assert (Hhas : In l (live (listeners (add l st)))).
  { destruct (in_dec Nat.eq_dec l (live (listeners st))) as [H|H].
    - now rewrite (Hin H).
    - rewrite (Hout H). apply in_app_iff. right. now left. }
  assert (Hnd' : NoDup (live (listeners (add l st)))).
  { destruct (in_dec Nat.eq_dec l (live (listeners st))) as [H|H].
    - now rewrite (Hin H).
    - rewrite (Hout H). now apply ServerFacts.NoDup_snoc. }
  assert (Htwice : add l (add l st) = add l st).
  { unfold add at 1. apply existsb_holds in Hhas. now rewrite Hhas. }
  assert (Hdel : live (listeners (delete l (add l (add l st))))
                 = filter (fun x => negb (Nat.eqb x l))
                     (live (listeners st))).
  { rewrite Htwice. unfold delete. cbn [listeners]. rewrite live_delete.
    destruct (in_dec Nat.eq_dec l (live (listeners st))) as [H|H].
    - now rewrite (Hin H).
    - rewrite (Hout H), filter_app. simpl. rewrite Nat.eqb_refl. simpl.
      now rewrite app_nil_r. }
  repeat split; auto.
  - apply NoDup_count_occ' with (decA := Nat.eq_dec); assumption.
  - rewrite Hdel. intros H. apply filter_In in H as [_ H].
    now rewrite Nat.eqb_refl in H.
Qed.

Section Facts.

Context {V P E : Type}.

Variable merge : V -> P -> V.

Variable behaviour : Listener -> V -> list (Stmt V P E).

Implicit Types (st : Store V) (l a b c : Listener) (v : V).
Implicit Types (entries rest : list (option Listener)).

Lemma notified_app (tr tr' : list (Obs V E)) :
  notified (tr ++ tr') = notified tr ++ notified tr'.
Proof.
  induction tr as [|[l v|x] tr IH]; simpl; now rewrite ?IH.
Qed.

Lemma run_quiet call steps (body : list (Stmt V P E)) st :
  quiet body = true ->
  status (run merge call steps body st) = Returned
  /\ store (run merge call steps body st) = st
  /\ notified (out (run merge call steps body st)) = [].
Proof.
  induction body as [|s body IH]; intros Hq; [now simpl|].
  simpl in Hq. apply andb_true_iff in Hq as [Hs Hq].
  destruct s; simpl in Hs; try discriminate. simpl. now apply IH.
Qed.

Lemma invoke_quiet d steps l v st :
  quiet (behaviour l v) = true ->
  status (invoke merge behaviour (S d) steps l v st) = Returned
  /\ store (invoke merge behaviour (S d) steps l v st) = st
  /\ notified (out (invoke merge behaviour (S d) steps l v st)) = [(l, v)].
Proof.
  intros Hq.
  destruct (run_quiet (invoke merge behaviour d steps) steps
              (behaviour l v) st Hq) as (Hs & Hst & Hn).
  cbn [invoke tell status store out]. repeat split; auto.
  cbn [app notified]. now rewrite Hn.
Qed.

Lemma skipn_nth {A : Type} (xs : list A) (i : nat) (x : A) :
  nth_error xs i = Some x -> skipn i xs = x :: skipn (S i) xs.
Proof.
  revert i. induction xs as [|y xs IH]; intros [|i]; simpl; try discriminate.
  - now intros [= ->].
  - intros H. rewrite (IH i H). reflexivity.
Qed.

(** The walk over listeners that leave the store alone: each live
    listener from entry [i] on is called once, in order. *)
Lemma forEach_quiet d steps k i v st :
  (forall l, In l (live (skipn i (listeners st))) ->
             quiet (behaviour l v) = true) ->
  List.length (listeners st) - i < k ->
  let r := forEach (invoke merge behaviour (S d) steps) k i v st in
  status r = Returned
  /\ store r = st
  /\ notified (out r) = map (fun l => (l, v)) (live (skipn i (listeners st))).
Proof.
  revert i. induction k as [|k IH]; intros i Hq Hk; [lia|].
  cbn [forEach]. destruct (nth_error (listeners st) i) as [[l|]|] eqn:Hi.
  - rewrite (skipn_nth _ _ _ Hi) in *. cbn [live map] in *.
    destruct (invoke_quiet d steps l v st (Hq l (or_introl eq_refl)))
      as (Hs & Hst & Hn).
    unfold bind. rewrite Hs, Hst. cbn [tell status store out].
    assert (Hlen : i < List.length (listeners st))
      by (apply nth_error_Some; congruence).
    destruct (IH (S i) (fun x Hx => Hq x (or_intror Hx))) as (Hs' & Hst' & Hn');
      [lia|].
    repeat split; auto. now rewrite notified_app, Hn, Hn'.
  - rewrite (skipn_nth _ _ _ Hi) in *. cbn [live] in *.
    assert (Hlen : i < List.length (listeners st))
      by (apply nth_error_Some; congruence).
    apply IH; [exact Hq | lia].
  - apply nth_error_None in Hi. rewrite skipn_all2 by exact Hi.
    now repeat split.
Qed.

Lemma exec_set_quiet d steps st w :
  (forall l, In l (live (listeners st)) -> quiet (behaviour l w) = true) ->
  List.length (listeners st) < steps ->
  let r := exec merge behaviour (S d) steps [CallSet w] st in
  status r = Returned
  /\ store r = {| state := w; listeners := listeners st |}
  /\ notified (out r) = map (fun l => (l, w)) (live (listeners st)).
Proof.
  intros Hq Hsteps. cbv zeta. unfold exec. cbn [run]. unfold set.
  destruct (forEach_quiet d steps steps 0 w
              {| state := w; listeners := listeners st |})
    as (Hs & Hst & Hn).
  - cbn [listeners skipn]. exact Hq.
  - cbn [listeners]. lia.
  - cbv zeta in Hs, Hst, Hn. cbn [listeners skipn] in Hn.
    unfold bind. rewrite Hs, Hst. cbn [tell ret status store out].
    repeat split; auto. now rewrite app_nil_r.
Qed.

(** X18.  With listeners that leave the store alone, [set] stores the new
    state and calls every listener the set holds once with it, in the
    order they were subscribed; [update] does the same with the state
    spread over by the partial one.  Afterwards [get] gives the new state
    and the listeners are as before. *)
Theorem set_notifies_each_listener_once d steps st v (p : P) :
  (forall l w, In l (live (listeners st)) -> quiet (behaviour l w) = true) ->
  List.length (listeners st) < steps ->
  let r := exec merge behaviour (S d) steps [CallSet v] st in
  let r' := exec merge behaviour (S d) steps [CallUpdate p] st in
  status r = Returned
  /\ get (store r) = v
  /\ listeners (store r) = listeners st
  /\ notified (out r) = map (fun l => (l, v)) (live (listeners st))
  /\ status r' = Returned
  /\ get (store r') = merge (state st) p
  /\ notified (out r')
     = map (fun l => (l, merge (state st) p)) (live (listeners st)).
Proof.
  intros Hq Hsteps r r'. subst r r'.
  destruct (exec_set_quiet d steps st v (fun l => Hq l v) Hsteps)
    as (Hs & Hst & Hn).
  destruct (exec_set_quiet d steps st (merge (state st) p)
              (fun l => Hq l _) Hsteps) as (Hs' & Hst' & Hn').
  change (exec merge behaviour (S d) steps [CallUpdate p] st)
    with (exec merge behaviour (S d) steps [CallSet (merge (state st) p)] st).
  rewrite Hst, Hst'. now repeat split.
Qed.

Lemma first_call d steps k v st a rest :
  listeners st = Some a :: rest ->
  forEach (invoke merge behaviour (S d) steps) (S k) 0 v st
  = bind (tell [Notified a v]
            (run merge (invoke merge behaviour d steps) steps
               (behaviour a v) st))
      (forEach (invoke merge behaviour (S d) steps) k 1 v).
Proof. intros H. cbn [forEach]. now rewrite H. Qed.

(** X20.  The walk of [set] follows the live set: when the first listener
    invokes the handle of another listener, that one is not called in
    this round any more, though it was subscribed when [set] was called;
    the others are called in their order. *)
Theorem handle_during_set_skips_listener d steps st a rest b v :
  listeners st = Some a :: rest ->
  behaviour a v = [CallHandle b] ->
  (forall l, In l (live rest) -> quiet (behaviour l v) = true) ->
  List.length (listeners st) < steps ->
  let r := exec merge behaviour (S d) steps [CallSet v] st in
  status r = Returned
  /\ notified (out r)
     = (a, v) :: map (fun l => (l, v))
                   (filter (fun x => negb (Nat.eqb x b)) (live rest))
  /\ ~ In (b, v) (map (fun l => (l, v))
                    (filter (fun x => negb (Nat.eqb x b)) (live rest))).
Proof.
  intros Hls Ha Hq Hsteps r. subst r. unfold exec. cbn [run]. unfold set.
  destruct steps as [|k]; [lia|].
  rewrite (first_call d (S k) k v _ a rest) by exact Hls.
  rewrite Ha. cbn [run ret tell bind status store out app].
  set (st1 := delete b {| state := v; listeners := listeners st |}).
  assert (Hskip : live (skipn 1 (listeners st1))
                  = filter (fun x => negb (Nat.eqb x b)) (live rest)).
  { subst st1. unfold delete. cbn [listeners]. rewrite Hls.
    cbn [map skipn]. apply live_delete. }
  destruct (forEach_quiet d (S k) k 1 v st1) as (Hs & Hst & Hn).
  - rewrite Hskip. intros l Hl. apply filter_In in Hl as [Hl _]. now apply Hq.
  - subst st1. unfold delete. cbn [listeners]. rewrite length_map.
    rewrite Hls in *. simpl in *. lia.
  - cbv zeta in Hs, Hst, Hn. rewrite Hskip in Hn.
    unfold bind. cbn [tell status store out]. rewrite Hs.
    cbn [tell ret status store out app].
    split; [reflexivity|]. split.
    + rewrite app_nil_r. cbn [notified]. now rewrite Hn.
    + rewrite in_map_iff. intros (x & Hx & Hin). injection Hx as ->.
      apply filter_In in Hin as [_ Hin]. now rewrite Nat.eqb_refl in Hin.
Qed.

(** X21.  A listener that is subscribed during a round of [set] is called
    in that same round, after the listeners that were there: the length
    of the set is read anew after every call. *)
Theorem subscribe_during_set_is_notified d steps st a rest c v :
  listeners st = Some a :: rest ->
  behaviour a v = [CallSubscribe c] ->
  c <> a ->
  ~ In c (live rest) ->
  quiet (behaviour c v) = true ->
  (forall l, In l (live rest) -> quiet (behaviour l v) = true) ->
  S (List.length (listeners st)) < steps ->
  let r := exec merge behaviour (S d) steps [CallSet v] st in
  status r = Returned
  /\ notified (out r)
     = (a, v) :: map (fun l => (l, v)) (live rest) ++ [(c, v)]
  /\ live (listeners (store r)) = a :: live rest ++ [c].
Proof.
  intros Hls Ha Hca Hc Hqc Hq Hsteps r. subst r.
  unfold exec. cbn [run]. unfold set.
  destruct steps as [|k]; [lia|].
  rewrite (first_call d (S k) k v _ a rest) by exact Hls.
  rewrite Ha. cbn [run ret tell bind status store out app].
  set (st0 := {| state := v; listeners := listeners st |}).
  assert (Hadd : add c st0
                 = {| state := v;
                      listeners := Some a :: rest ++ [Some c] |}).
  { unfold add. subst st0. cbn [listeners state]. rewrite Hls.
    destruct (existsb (holds c) (Some a :: rest)) eqn:Hex;
      [|reflexivity].
    apply existsb_holds in Hex. simpl in Hex.
    destruct Hex as [Hex|Hex]; [congruence | tauto]. }
  rewrite Hadd.
  destruct (forEach_quiet d (S k) k 1 v
              {| state := v; listeners := Some a :: rest ++ [Some c] |})
    as (Hs & Hst & Hn).
  - cbn [listeners skipn]. rewrite live_app. intros l Hl.
    apply in_app_iff in Hl as [Hl|[<-|[]]]; [now apply Hq | exact Hqc].
  - cbn [listeners]. rewrite Hls in Hsteps. simpl in *.
    rewrite length_app. simpl. lia.
  - cbv zeta in Hs, Hst, Hn. cbn [listeners skipn] in Hn.
    rewrite live_app in Hn. cbn [live] in Hn.
    unfold bind. cbn [tell status store out]. rewrite Hs, Hst.
    cbn [tell ret status store out app].
    split; [reflexivity|]. split.
    + rewrite app_nil_r. cbn [notified]. rewrite Hn.
      now rewrite map_app.
    + cbn [listeners live]. now rewrite live_app.
Qed.

End Facts.

(** X22.  [setUser(user)] makes the user the state of the store and calls
    every listener once with it, so the private route shows the chat page
    from then on; [setUser(null)] sends it back to the sign-in page, where
    it is at the start. *)
Theorem setUser_switches_the_private_route {E : Type}
  (behaviour : Listener -> AuthState -> list (Stmt AuthState AuthState E))
  (d steps : nat) (st : Store AuthState) (u : Server.User) :
  (forall l w, In l (live (listeners st)) -> quiet (behaviour l w) = true) ->
  List.length (listeners st) < steps ->
  let r := exec spread_user behaviour (S d) steps (setUser (Some u)) st in
  let r' := exec spread_user behaviour (S d) steps (setUser None) st in
  get (store r) = Some u
  /\ PrivateRoute (get (store r)) = Children
  /\ notified (out r) = map (fun l => (l, Some u)) (live (listeners st))
  /\ PrivateRoute (get (store r')) = NavigateHome
  /\ PrivateRoute (get authStore) = NavigateHome.
Proof.
  intros Hq Hsteps r r'. subst r r'. unfold setUser.
  change (exec spread_user behaviour (S d) steps [CallUpdate (Some u)] st)
    with (exec spread_user behaviour (S d) steps [CallSet (Some u)] st).
  change (exec spread_user behaviour (S d) steps [CallUpdate None] st)
    with (exec spread_user behaviour (S d) steps [CallSet None] st).
  destruct (exec_set_quiet spread_user behaviour d steps st (Some u)
              (fun l => Hq l _) Hsteps) as (_ & Hst & Hn).
  destruct (exec_set_quiet spread_user behaviour d steps st None
              (fun l => Hq l _) Hsteps) as (_ & Hst' & _).
  unfold AuthState in *. rewrite Hst, Hst'. now repeat split.
Qed.

Lemma set_notifies_each_listener_once_witness :
  List.length (Store.listeners Samples.three_listeners) < 4
  /\ notified
       (out (exec Nat.add Samples.plain 1 4 [CallSet 7]
               Samples.three_listeners))
     = [(1, 7); (2, 7); (3, 7)].
Proof.
  split; [apply le_n|].
  exact (proj1 (proj2 (proj2 (proj2
    (set_notifies_each_listener_once Nat.add Samples.plain 0 4
       Samples.three_listeners 7 5 (fun _ _ _ => eq_refl) (le_n 4)))))).
Defined.

Lemma three_listeners_distinct :
  NoDup (live (Store.listeners Samples.three_listeners)).
Proof.
  repeat constructor; simpl; intuition discriminate.
Qed.

Lemma listeners_are_a_set_witness :
  add 2 (add 2 Samples.three_listeners) = add 2 Samples.three_listeners
  /\ count_occ Nat.eq_dec
       (live (Store.listeners (add 2 Samples.three_listeners))) 2 = 1.
Proof.
  destruct (listeners_are_a_set 2 Samples.three_listeners
              three_listeners_distinct) as (Htwice & _ & Hone & _).
  split; [exact Htwice | exact Hone].
Defined.

Lemma handle_during_set_skips_listener_witness :
  Store.listeners Samples.three_listeners = Some 1 :: [Some 2; Some 3]
  /\ Samples.unhooking 1 7 = [CallHandle 3]
  /\ notified
       (out (exec Nat.add Samples.unhooking 1 4 [CallSet 7]
               Samples.three_listeners))
     = [(1, 7); (2, 7)].
Proof.
  split; [reflexivity|]. split; [reflexivity|].
  refine (proj1 (proj2
    (handle_during_set_skips_listener Nat.add Samples.unhooking 0 4
       Samples.three_listeners 1 [Some 2; Some 3] 3 7
       eq_refl eq_refl _ (le_n 4)))).
  intros l [<-|[<-|[]]]; reflexivity.
Defined.

Lemma subscribe_during_set_is_notified_witness :
  Store.listeners Samples.three_listeners = Some 1 :: [Some 2; Some 3]
  /\ Samples.hooking 1 7 = [CallSubscribe 4]
  /\ notified
       (out (exec Nat.add Samples.hooking 1 5 [CallSet 7]
               Samples.three_listeners))
     = [(1, 7); (2, 7); (3, 7); (4, 7)].
Proof.
  split; [reflexivity|]. split; [reflexivity|].
  refine (proj1 (proj2
    (subscribe_during_set_is_notified Nat.add Samples.hooking 0 5
       Samples.three_listeners 1 [Some 2; Some 3] 4 7
       eq_refl eq_refl _ _ eq_refl _ (le_n 5)))).
  - discriminate.
  - simpl. intuition discriminate.
  - intros l [<-|[<-|[]]]; reflexivity.
Defined.

Lemma setUser_switches_the_private_route_witness :
  List.length (Store.listeners Samples.watched) < 2
  /\ PrivateRoute
       (get (store (exec spread_user Samples.watcher 1 2
                      (setUser (Some Samples.alice)) Samples.watched)))
     = Children.
Proof.
  split; [apply le_n|].
  exact (proj1 (proj2
    (setUser_switches_the_private_route Samples.watcher 0 2 Samples.watched
       Samples.alice (fun _ _ _ => eq_refl) (le_n 2)))).
Defined.

End StoreFacts.
